(** * TFBinPacker: a shallow embedding of [binpacker.cpp]

    The bin keeps a list of free rectangles ("empty regions") with inclusive
    [unsigned int] coordinates.  [TryPackArea] searches the corners of every
    free region in both orientations, scores each candidate with
    [GetClipScore], carves the winner out of every region it touches and
    re-inserts the remainders; [ExtendDimensions] grows the bin to the right
    and downwards.

    Machine integers are modelled as [Z] with the wrap-around of each
    operation written out: [unsigned int] is taken modulo [2^32], and the
    [int] score is the two's-complement reading of a 32-bit word. *)

From Stdlib Require Import ZArith List Bool Lia Permutation Sorted.
Import ListNotations.
Local Open Scope Z_scope.

(** ** 32-bit machine arithmetic *)

Module U32.

Definition modulus : Z := 4294967296.
Definition INT_MAX : Z := 2147483647.

Definition wrap (x : Z) : Z := x mod modulus.

Definition add (a b : Z) : Z := wrap (a + b).
Definition sub (a b : Z) : Z := wrap (a - b).
Definition mul (a b : Z) : Z := wrap (a * b).

(** Reading a 32-bit word as an [int]. *)
Definition to_int (x : Z) : Z :=
  let u := wrap x in if u <? 2147483648 then u else u - modulus.

(** [int + int]; the overflow the C++ standard leaves undefined is taken as
    the wrap-around every mainstream target performs. *)
Definition add_int (a b : Z) : Z := to_int (a + b).

Definition in_range (x : Z) : Prop := 0 <= x < modulus.

End U32.

(** ** Geometric primitives ([binpacker.h]) *)

Record Rect : Type := mkRect { left : Z; top : Z; right : Z; bottom : Z }.
Record Area : Type := mkArea { width : Z; height : Z }.

(** The fields are [unsigned int]: every value the program can hold is in
    range. *)
Definition wf_rect (r : Rect) : Prop :=
  U32.in_range (left r) /\ U32.in_range (top r) /\
  U32.in_range (right r) /\ U32.in_range (bottom r).

Definition wf_area (a : Area) : Prop :=
  U32.in_range (width a) /\ U32.in_range (height a).

Definition IsValid (r : Rect) : bool :=
  (left r <=? right r) && (top r <=? bottom r).

(** The "no result" value [Rect{1, 1, 0, 0}]. *)
Definition sentinel : Rect := mkRect 1 1 0 0.

Definition b2z (b : bool) : Z := if b then 1 else 0.

(** ** The placement scorer *)

(** The guard of [GetClipScore], negated: the clip touches the region. *)
Definition clipTouches (region clip : Rect) : bool :=
  negb ((left clip >? right region) || (right clip <? left region)
        || (top clip >? bottom region) || (bottom clip <? top region)).

(** The six boolean terms of the score, in the order of the source. *)
Definition leftEdgeTerm (region clip : Rect) : bool :=
  (left clip >? left region) && (left clip <=? right region).
Definition topEdgeTerm (region clip : Rect) : bool :=
  (top clip >? top region) && (top clip <=? bottom region).
Definition rightEdgeTerm (region clip : Rect) : bool :=
  (right clip >? right region) && (right clip <=? left region).
Definition bottomEdgeTerm (region clip : Rect) : bool :=
  (bottom clip >? bottom region) && (bottom clip <=? top region).
Definition fullHeightTerm (region clip : Rect) : bool :=
  (bottom clip =? bottom region) && (top clip =? top region).
Definition fullWidthTerm (region clip : Rect) : bool :=
  (left clip =? left region) && (right clip =? right region).

(** [const int score = 2 + ... - ...] of [GetClipScore]. *)
Definition clipMultiplier (region clip : Rect) : Z :=
  2
  + b2z (leftEdgeTerm region clip)
  + b2z (topEdgeTerm region clip)
  + b2z (rightEdgeTerm region clip)
  + b2z (bottomEdgeTerm region clip)
  - b2z (fullHeightTerm region clip)
  - b2z (fullWidthTerm region clip).

Definition intersection (region clip : Rect) : Rect :=
  mkRect (Z.max (left region) (left clip)) (Z.max (top region) (top clip))
         (Z.min (right region) (right clip)) (Z.min (bottom region) (bottom clip)).

(** [(r.right - r.left + 1) * (r.bottom - r.top + 1)] on [unsigned int]. *)
Definition area32 (r : Rect) : Z :=
  U32.mul (U32.add (U32.sub (right r) (left r)) 1)
          (U32.add (U32.sub (bottom r) (top r)) 1).

Definition GetClipScore (region clip : Rect) : Z :=
  if (left clip >? right region) || (right clip <? left region)
     || (top clip >? bottom region) || (bottom clip <? top region)
  then 0
  else
    let score := clipMultiplier region clip in
    let intersectionArea := area32 (intersection region clip) in
    let boundsArea := area32 region in
    U32.to_int (U32.mul (U32.wrap score) (U32.sub boundsArea intersectionArea)).

(** ** The bin *)

Record Bin : Type := mkBin { dimensions : Area; emptyRegions : list Rect }.

(** [Area dimensions = {0, 0}] and an empty vector. *)
Definition fresh : Bin := mkBin (mkArea 0 0) [].

Definition GetDimensions (b : Bin) : Area := dimensions b.
Definition GetEmptyRegions (b : Bin) : list Rect := emptyRegions b.

(** ** Placement search *)

(** [accumulate(emptyRegions.cbegin(), emptyRegions.cend(), 0, ...)]. *)
Definition totalScore (regions : list Rect) (clip : Rect) : Z :=
  fold_left (fun score r => U32.add_int score (GetClipScore r clip)) regions 0.

(** The test that skips regions in which the area cannot fit. *)
Definition fits (r : Rect) (area : Area) : bool :=
  (U32.sub (right r) (left r) >=? U32.sub (width area) 1)
  && (U32.sub (bottom r) (top r) >=? U32.sub (height area) 1).

Definition clipNW (r : Rect) (area : Area) : Rect :=
  mkRect (left r) (top r)
         (U32.sub (U32.add (left r) (width area)) 1)
         (U32.sub (U32.add (top r) (height area)) 1).

Definition clipNE (r : Rect) (area : Area) : Rect :=
  mkRect (U32.add (U32.sub (right r) (width area)) 1) (top r)
         (right r)
         (U32.sub (U32.add (top r) (height area)) 1).

Definition clipSW (r : Rect) (area : Area) : Rect :=
  mkRect (left r) (U32.add (U32.sub (bottom r) (height area)) 1)
         (U32.sub (U32.add (left r) (width area)) 1)
         (bottom r).

Definition clipSE (r : Rect) (area : Area) : Rect :=
  mkRect (U32.add (U32.sub (right r) (width area)) 1)
         (U32.add (U32.sub (bottom r) (height area)) 1)
         (right r) (bottom r).

Definition corners (r : Rect) (area : Area) : list Rect :=
  [clipNW r area; clipNE r area; clipSW r area; clipSE r area].

(** The running minimum of the search. *)
Record Best : Type := mkBest { minScore : Z; bestRect : Rect }.

Definition noBest : Best := mkBest U32.INT_MAX sentinel.

(** The four corner tests of one region; the flag reports the [break]. *)
Fixpoint tryCorners (regions clips : list Rect) (st : Best) : Best * bool :=
  match clips with
  | [] => (st, false)
  | clip :: clips' =>
      let score := totalScore regions clip in
      if score <? minScore st then
        if score =? 0 then (mkBest score clip, true)
        else tryCorners regions clips' (mkBest score clip)
      else tryCorners regions clips' st
  end.

(** [for (const Rect & r : emptyRegions)] for one orientation. *)
Fixpoint scanRegions (regions rs : list Rect) (area : Area) (st : Best) : Best :=
  match rs with
  | [] => st
  | r :: rs' =>
      if fits r area then
        let '(st', stop) := tryCorners regions (corners r area) st in
        if stop then st' else scanRegions regions rs' area st'
      else scanRegions regions rs' area st
  end.

Definition rotate (area : Area) : Area := mkArea (height area) (width area).

(** Both orientations, leaving after the first when it reached score 0. *)
Definition search (regions : list Rect) (area : Area) : Best :=
  let st := scanRegions regions regions area noBest in
  if minScore st =? 0 then st
  else scanRegions regions regions (rotate area) st.

(** ** Free-region update *)

Definition overlapsClip (clip i : Rect) : bool :=
  (left clip <=? right i) && (top clip <=? bottom i)
  && (right clip >=? left i) && (bottom clip >=? top i).

(** The strips staged for one clipped region, in the order of the source. *)
Definition remainders (i clip : Rect) : list Rect :=
  (if (left clip >? left i) && (left clip <=? right i)
   then [mkRect (left i) (top i) (U32.sub (left clip) 1) (bottom i)] else [])
  ++ (if (top clip >? top i) && (top clip <=? bottom i)
      then [mkRect (left i) (top i) (right i) (U32.sub (top clip) 1)] else [])
  ++ (if (right clip <? right i) && (right clip >=? left i)
      then [mkRect (U32.add (right clip) 1) (top i) (right i) (bottom i)] else [])
  ++ (if (bottom clip <? bottom i) && (bottom clip >=? top i)
      then [mkRect (left i) (U32.add (bottom clip) 1) (right i) (bottom i)] else []).

(** The erase loop: the regions that stay, and [emptyRegionsToInsert]. *)
Fixpoint carve (clip : Rect) (regions : list Rect) : list Rect * list Rect :=
  match regions with
  | [] => ([], [])
  | i :: rest =>
      let '(kept, staged) := carve clip rest in
      if overlapsClip clip i then (kept, remainders i clip ++ staged)
      else (i :: kept, staged)
  end.

(** The predicate of the merging [find_if]. *)
Definition mergeable (newRegion r : Rect) : bool :=
  ((left newRegion =? left r) && (right newRegion =? right r)
   && (top newRegion <=? bottom r) && (bottom newRegion >=? top r))
  || ((top newRegion =? top r) && (bottom newRegion =? bottom r)
      && (left newRegion <=? right r) && (right newRegion >=? left r)).

Definition boundingBox (i newRegion : Rect) : Rect :=
  mkRect (Z.min (left i) (left newRegion)) (Z.min (top i) (top newRegion))
         (Z.max (right i) (right newRegion)) (Z.max (bottom i) (bottom newRegion)).

(** [find_if] followed by [erase] of the element found. *)
Fixpoint find_erase (p : Rect -> bool) (l : list Rect) : option (Rect * list Rect) :=
  match l with
  | [] => None
  | r :: l' =>
      if p r then Some (r, l')
      else match find_erase p l' with
           | Some (m, l'') => Some (m, r :: l'')
           | None => None
           end
  end.

(** The ordering key [a.left * a.top]. *)
Definition sortKey (r : Rect) : Z := U32.mul (left r) (top r).

(** [std::upper_bound] as the bisection the standard libraries implement:
    [first] and [len] delimit the remaining range. *)
Fixpoint upper_bound_loop (fuel : nat) (l : list Rect) (key : Z)
    (first len : nat) : nat :=
  match fuel with
  | O => first
  | S fuel' =>
      match len with
      | O => first
      | _ =>
          let half := Nat.div2 len in
          let middle := (first + half)%nat in
          if key <? sortKey (nth middle l sentinel)
          then upper_bound_loop fuel' l key first half
          else upper_bound_loop fuel' l key (S middle) (len - half - 1)%nat
      end
  end.

Definition upper_bound (l : list Rect) (value : Rect) : nat :=
  upper_bound_loop (length l) l (sortKey value) 0%nat (length l).

(** [vector::emplace] before position [pos]. *)
Definition emplace (pos : nat) (x : Rect) (l : list Rect) : list Rect :=
  firstn pos l ++ x :: skipn pos l.

(** One round of the insertion loop. *)
Definition insertRegion (regions : list Rect) (newRegion : Rect) : list Rect :=
  match find_erase (mergeable newRegion) regions with
  | Some (i, rest) =>
      let merged := boundingBox i newRegion in
      emplace (upper_bound rest merged) merged rest
  | None => emplace (upper_bound regions newRegion) newRegion regions
  end.

Definition insertAll (staged regions : list Rect) : list Rect :=
  fold_left insertRegion staged regions.

Definition applyClip (clip : Rect) (regions : list Rect) : list Rect :=
  let '(kept, staged) := carve clip regions in insertAll staged kept.

(** [Rect Bin::TryPackArea(Area area)]: the returned rectangle and the bin
    after the call. *)
Definition TryPackArea (b : Bin) (area : Area) : Rect * Bin :=
  if (width area >? 0) && (height area >? 0)
     && (width area <=? width (dimensions b))
     && (height area <=? height (dimensions b))
  then
    let best := search (emptyRegions b) area in
    if IsValid (bestRect best)
    then (bestRect best,
          mkBin (dimensions b) (applyClip (bestRect best) (emptyRegions b)))
    else (sentinel, b)
  else (sentinel, b).

(** ** Dimension extension *)

(** [find_if] followed by an update of the element found, in place. *)
Fixpoint update_first (p : Rect -> bool) (f : Rect -> Rect) (l : list Rect)
    : option (list Rect) :=
  match l with
  | [] => None
  | r :: l' =>
      if p r then Some (f r :: l')
      else match update_first p f l' with
           | Some l'' => Some (r :: l'')
           | None => None
           end
  end.

Definition pushRight (by_ : Z) (r : Rect) : Rect :=
  mkRect (left r) (top r) (U32.add (right r) by_) (bottom r).

Definition pushBottom (by_ : Z) (r : Rect) : Rect :=
  mkRect (left r) (top r) (right r) (U32.add (bottom r) by_).

(** The body of [if (extension.width > 0 && dimensions.height > 0)]. *)
Definition growRight (dims extension : Area) (rightEdge bottomEdge : Z)
    (regions : list Rect) : list Rect :=
  match update_first
          (fun r => (right r =? rightEdge)
                    && (U32.sub (bottom r) (top r) =? bottomEdge))
          (pushRight (width extension)) regions with
  | Some regions' => regions'
  | None =>
      map (fun r => if right r =? rightEdge
                    then pushRight (width extension) r else r) regions
      ++ [mkRect (width dims) 0
                 (U32.sub (U32.add (width dims) (width extension)) 1)
                 bottomEdge]
  end.

(** The body of [if (extension.height > 0 && dimensions.width > 0)];
    [dims] has the new width and the old height. *)
Definition growDown (dims extension : Area) (rightEdge bottomEdge : Z)
    (regions : list Rect) : list Rect :=
  match update_first
          (fun r => (bottom r =? bottomEdge)
                    && (U32.sub (right r) (left r) =? rightEdge))
          (pushBottom (height extension)) regions with
  | Some regions' => regions'
  | None =>
      map (fun r => if bottom r =? bottomEdge
                    then pushBottom (height extension) r else r) regions
      ++ [mkRect 0 (height dims) rightEdge
                 (U32.sub (U32.add (height dims) (height extension)) 1)]
  end.

(** [void Bin::ExtendDimensions(Area extension)]. *)
Definition ExtendDimensions (b : Bin) (extension : Area) : Bin :=
  let dims := dimensions b in
  let rightEdge := if width dims >? 0 then U32.sub (width dims) 1 else 0 in
  let bottomEdge := if height dims >? 0 then U32.sub (height dims) 1 else 0 in
  let regions1 :=
    if (width extension >? 0) && (height dims >? 0)
    then growRight dims extension rightEdge bottomEdge (emptyRegions b)
    else emptyRegions b in
  let dims1 := mkArea (U32.add (width dims) (width extension)) (height dims) in
  let rightEdge1 := U32.add rightEdge (width extension) in
  let regions2 :=
    if (height extension >? 0) && (width dims1 >? 0)
    then growDown dims1 extension rightEdge1 bottomEdge regions1
    else regions1 in
  mkBin (mkArea (width dims1) (U32.add (height dims) (height extension)))
        regions2.

(** ** Runs of the two operations *)

Inductive Op : Type :=
| OpExtend (extension : Area)
| OpPack (area : Area).

Definition exec (b : Bin) (o : Op) : Bin :=
  match o with
  | OpExtend e => ExtendDimensions b e
  | OpPack a => snd (TryPackArea b a)
  end.

Definition run (ops : list Op) : Bin := fold_left exec ops fresh.

(** ** Specification-side notions *)

(** Extent of a rectangle over unbounded integers. *)
Definition rectWidth (r : Rect) : Z := right r - left r + 1.
Definition rectHeight (r : Rect) : Z := bottom r - top r + 1.
Definition rectArea (r : Rect) : Z := rectWidth r * rectHeight r.

(** The scorer as the specification words it: base 2, one point for each
    edge test, one off for each full span, times the area left over. *)
Definition specMultiplier (region clip : Rect) : Z :=
  2
  + b2z ((left region <? left clip) && (left clip <=? right region))
  + b2z ((top region <? top clip) && (top clip <=? bottom region))
  + b2z ((right region <? right clip) && (right clip <=? left region))
  + b2z ((bottom region <? bottom clip) && (bottom clip <=? top region))
  - b2z ((top clip =? top region) && (bottom clip =? bottom region))
  - b2z ((left clip =? left region) && (right clip =? right region)).

Definition specScore (region clip : Rect) : Z :=
  if clipTouches region clip
  then specMultiplier region clip
       * (rectArea region - rectArea (intersection region clip))
  else 0.

(** The cell [(x, y)] lies in the rectangle. *)
Definition inRect (r : Rect) (x y : Z) : Prop :=
  left r <= x <= right r /\ top r <= y <= bottom r.

(** The cell lies in some rectangle of the list. *)
Definition covered (l : list Rect) (x y : Z) : Prop :=
  exists r, In r l /\ inRect r x y.

(** Two rectangles share a cell. *)
Definition overlap (a b : Rect) : Prop := exists x y, inRect a x y /\ inRect b x y.

(** [inner] lies inside [outer]. *)
Definition contains (outer inner : Rect) : Prop :=
  left outer <= left inner /\ right inner <= right outer /\
  top outer <= top inner /\ bottom inner <= bottom outer.

(** [within W H r]: [r] is non-empty and lies in [[0, W) x [0, H)]. *)
Definition within (W H : Z) (r : Rect) : Prop :=
  0 <= left r <= right r /\ right r < W /\
  0 <= top r <= bottom r /\ bottom r < H.

(** A rectangle of in-range, ordered coordinates. *)
Definition goodRect (r : Rect) : Prop := within U32.modulus U32.modulus r.

(** The candidate placements of a request: a corner of a region that
    passes the size test, in one of the two orientations. *)
Definition candidate (regions : list Rect) (area : Area) (c : Rect) : Prop :=
  exists r a, In r regions /\ (a = area \/ a = rotate area) /\
              fits r a = true /\ In c (corners r a).

(** The oriented area is no larger than the region in either direction. *)
Definition accommodates (r : Rect) (a : Area) : Prop :=
  width a <= rectWidth r /\ height a <= rectHeight r.

(** Sum of the areas of a list of rectangles, over unbounded integers. *)
Definition totalArea (l : list Rect) : Z :=
  fold_right (fun r acc => rectArea r + acc) 0 l.

(** An extension that keeps both dimensions representable. *)
Definition extensionInRange (b : Bin) (e : Area) : Prop :=
  wf_area e /\
  width (dimensions b) + width e < U32.modulus /\
  height (dimensions b) + height e < U32.modulus.

(** The bins that runs of the two operations produce from a fresh bin while
    the dimensions stay representable. *)
Inductive reachable : Bin -> Prop :=
| reach_fresh : reachable fresh
| reach_extend b e :
    reachable b -> extensionInRange b e ->
    reachable (ExtendDimensions b e)
| reach_pack b a :
    reachable b -> wf_area a -> reachable (snd (TryPackArea b a)).

(** A 10x10 bin built one dimension at a time; its only free region is
    {0,0,9,9}. *)
Definition tenByTen : Bin :=
  ExtendDimensions (ExtendDimensions fresh (mkArea 10 0)) (mkArea 0 10).

(** A bin 5 wide and 1 tall with the single free region {0,0,4,0}. *)
Definition fiveByOne : Bin :=
  ExtendDimensions (ExtendDimensions fresh (mkArea 5 0)) (mkArea 0 1).

(** The cell [(x, y)] lies in the bin's rectangle. *)
Definition inBin (b : Bin) (x y : Z) : Prop :=
  0 <= x < width (dimensions b) /\ 0 <= y < height (dimensions b).

(** An extension that adds columns and rows in one call to a bin that has
    no column yet; [ExtendDimensions] then uses a right edge that is one
    column too far. *)
Definition growsFromZeroWidth (b : Bin) (e : Area) : Prop :=
  width (dimensions b) = 0 /\ 0 < width e /\ 0 < height e.

(** [history b placed]: the bin [b] results from a run of in-range
    operations on a fresh bin, none of which grows it from zero width in
    both directions at once, and [placed] lists the valid rectangles the
    packing calls of the run returned, latest first. *)
Inductive history : Bin -> list Rect -> Prop :=
| hist_fresh : history fresh []
| hist_extend b placed e :
    history b placed -> extensionInRange b e -> ~ growsFromZeroWidth b e ->
    history (ExtendDimensions b e) placed
| hist_pack b placed a :
    history b placed -> wf_area a ->
    history (snd (TryPackArea b a))
            (if IsValid (fst (TryPackArea b a))
             then fst (TryPackArea b a) :: placed else placed).

(** The 10x10 bin after packing a 4x4 area. *)
Definition packedOnce : Bin := snd (TryPackArea tenByTen (mkArea 4 4)).

(** Decidable forms of [inRect] and [covered]. *)
Definition inRectb (r : Rect) (x y : Z) : bool :=
  (left r <=? x) && (x <=? right r) && (top r <=? y) && (y <=? bottom r).

Definition coveredb (l : list Rect) (x y : Z) : bool :=
  existsb (fun r => inRectb r x y) l.

(** The integers [0 .. n-1] and the cells of a [W] x [H] grid. *)
Definition zrange (n : Z) : list Z := map Z.of_nat (seq 0 (Z.to_nat n)).

Definition cells (W H : Z) : list (Z * Z) := list_prod (zrange W) (zrange H).

(** Number of cells of the grid that satisfy [f]. *)
Definition countCells (f : Z -> Z -> bool) (W H : Z) : Z :=
  Z.of_nat (length (filter (fun c => f (fst c) (snd c)) (cells W H))).

(** Number of cells of the bin that lie in at least one free region. *)
Definition freeCells (b : Bin) : Z :=
  countCells (coveredb (emptyRegions b))
             (width (dimensions b)) (height (dimensions b)).

(** A list of rectangles no two of which share a cell. *)
Definition pairwiseDisjoint (l : list Rect) : Prop :=
  ForallOrdPairs (fun a b => ~ overlap a b) l.

(** The bookkeeping a run maintains: free regions and placements lie in the
    bin, every cell of the bin is free or placed but not both, and no two
    placements share a cell. *)
Definition accounted (b : Bin) (placed : list Rect) : Prop :=
  wf_area (dimensions b) /\
  Forall (within (width (dimensions b)) (height (dimensions b))) (emptyRegions b) /\
  Forall (within (width (dimensions b)) (height (dimensions b))) placed /\
  (forall x y, inBin b x y -> covered (emptyRegions b) x y \/ covered placed x y) /\
  (forall x y, covered (emptyRegions b) x y -> ~ covered placed x y) /\
  pairwiseDisjoint placed.

(** The running minimum of a search over [regions] is the score of the
    rectangle recorded with it, unless nothing was recorded yet. *)
Definition tracksScore (regions : list Rect) (st : Best) : Prop :=
  st = noBest \/ minScore st = totalScore regions (bestRect st).

(** Every rectangle of [l] is contained in one of [l'], which holds at most
    [extra] more rectangles. *)
Definition grownInto (extra : nat) (l l' : list Rect) : Prop :=
  (forall r, In r l -> exists r', In r' l' /\ contains r' r) /\
  (length l <= length l' <= length l + extra)%nat.

(** The list is ordered by ascending [left * top]. *)
Definition keySorted (l : list Rect) : Prop :=
  StronglySorted (fun a b => sortKey a <= sortKey b) l.

(** ** Proof automation *)

(** Comparisons as propositions. *)
Ltac zprop :=
  rewrite ?Z.gtb_ltb, ?Z.geb_leb in *;
  repeat (rewrite ?andb_true_iff, ?orb_true_iff, ?negb_true_iff,
                  ?andb_false_iff, ?orb_false_iff, ?negb_false_iff,
                  ?Z.leb_le, ?Z.ltb_lt, ?Z.eqb_eq,
                  ?Z.leb_gt, ?Z.ltb_ge, ?Z.eqb_neq in * ).

(** Case analysis on the comparisons of the goal, one kind at a time. *)
Ltac split_leb :=
  match goal with |- context [(?p <=? ?q)] => destruct (Z.leb_spec p q) end.
Ltac split_ltb :=
  match goal with |- context [(?p <? ?q)] => destruct (Z.ltb_spec p q) end.
Ltac split_eqb :=
  match goal with |- context [(?p =? ?q)] => destruct (Z.eqb_spec p q) end.
Ltac zcases :=
  rewrite ?Z.gtb_ltb, ?Z.geb_leb;
  repeat first [split_leb | split_ltb | split_eqb].

(** * Properties *)

(** ** Machine arithmetic *)

Module U32Facts.
Import U32.

Lemma wrap_small x : in_range x -> wrap x = x.
Proof. unfold in_range, wrap. intros H. apply Z.mod_small. exact H. Qed.

Lemma wrap_range x : in_range (wrap x).
Proof. unfold in_range, wrap, modulus. apply Z.mod_pos_bound. lia. Qed.

Lemma wrap_wrap x : wrap (wrap x) = wrap x.
Proof. unfold wrap. apply Z.mod_mod. unfold modulus. lia. Qed.

Lemma wrap_add_l a b : wrap (wrap a + b) = wrap (a + b).
Proof. unfold wrap. apply Zplus_mod_idemp_l. Qed.

Lemma wrap_add_r a b : wrap (a + wrap b) = wrap (a + b).
Proof. unfold wrap. apply Zplus_mod_idemp_r. Qed.

Lemma wrap_sub_l a b : wrap (wrap a - b) = wrap (a - b).
Proof. unfold wrap. apply Zminus_mod_idemp_l. Qed.

Lemma wrap_sub_r a b : wrap (a - wrap b) = wrap (a - b).
Proof. unfold wrap. apply Zminus_mod_idemp_r. Qed.

Lemma wrap_mul_l a b : wrap (wrap a * b) = wrap (a * b).
Proof. unfold wrap. apply Zmult_mod_idemp_l. Qed.

Lemma wrap_mul_r a b : wrap (a * wrap b) = wrap (a * b).
Proof. unfold wrap. apply Zmult_mod_idemp_r. Qed.

Lemma to_int_wrap x : to_int (wrap x) = to_int x.
Proof. unfold to_int. rewrite wrap_wrap. reflexivity. Qed.

Lemma to_int_small x : 0 <= x <= INT_MAX -> to_int x = x.
Proof.
  unfold to_int, INT_MAX. intros H.
  rewrite wrap_small by (unfold in_range, modulus; lia).
  destruct (Z.ltb_spec x 2147483648); lia.
Qed.

(** [a + b - 1] computed left to right on words, when the result fits. *)
Lemma sub_add_exact a b c :
  in_range (a + b - c) -> sub (add a b) c = a + b - c.
Proof. intros H. unfold sub, add. rewrite wrap_sub_l. apply wrap_small, H. Qed.

Lemma add_sub_exact a b c :
  in_range (a - b + c) -> add (sub a b) c = a - b + c.
Proof. intros H. unfold sub, add. rewrite wrap_add_l. apply wrap_small, H. Qed.

Lemma sub_exact a b : in_range (a - b) -> sub a b = a - b.
Proof. apply wrap_small. Qed.

Lemma add_exact a b : in_range (a + b) -> add a b = a + b.
Proof. apply wrap_small. Qed.

Lemma mul_exact a b : in_range (a * b) -> mul a b = a * b.
Proof. apply wrap_small. Qed.

Lemma to_int_mul_wrap a b : to_int (mul (wrap a) b) = to_int (a * b).
Proof. unfold mul. rewrite wrap_mul_l, to_int_wrap. reflexivity. Qed.

Lemma to_int_mul_wrap_r a b : to_int (a * wrap b) = to_int (a * b).
Proof.
  rewrite <- (to_int_wrap (a * wrap b)), wrap_mul_r, to_int_wrap. reflexivity.
Qed.

End U32Facts.

(** ** The scorer *)

Section Scorer.
Import U32 U32Facts.

Lemma b2z_range b : 0 <= b2z b <= 1.
Proof. destruct b; simpl; lia. Qed.

(** In a valid region nothing is both beyond the right edge and at or
    before the left edge. *)
Lemma rightEdgeTerm_false region clip :
  left region <= right region -> rightEdgeTerm region clip = false.
Proof. unfold rightEdgeTerm. intros H. zcases; simpl; try reflexivity; lia. Qed.

Lemma bottomEdgeTerm_false region clip :
  top region <= bottom region -> bottomEdgeTerm region clip = false.
Proof. unfold bottomEdgeTerm. intros H. zcases; simpl; try reflexivity; lia. Qed.

Lemma clipMultiplier_range region clip :
  left region <= right region -> top region <= bottom region ->
  0 <= clipMultiplier region clip <= 4.
Proof.
  intros Hh Hv. unfold clipMultiplier.
  rewrite (rightEdgeTerm_false region clip Hh), (bottomEdgeTerm_false region clip Hv).
  pose proof (b2z_range (leftEdgeTerm region clip)).
  pose proof (b2z_range (topEdgeTerm region clip)).
  pose proof (b2z_range (fullHeightTerm region clip)).
  pose proof (b2z_range (fullWidthTerm region clip)).
  change (b2z false) with 0. lia.
Qed.

(** C10: in a region with [left <= right] and [top <= bottom] the two
    edge terms conditioned on [clip.right] and [clip.bottom] are 0 for every
    clip, and the multiplier of the score lies between 0 and 4. *)
Theorem right_bottom_terms_vanish (region clip : Rect) :
  left region <= right region -> top region <= bottom region ->
  b2z (rightEdgeTerm region clip) = 0 /\
  b2z (bottomEdgeTerm region clip) = 0 /\
  0 <= clipMultiplier region clip <= 4.
Proof.
  intros Hh Hv.
  rewrite (rightEdgeTerm_false region clip Hh), (bottomEdgeTerm_false region clip Hv).
  repeat split; try reflexivity; apply clipMultiplier_range; assumption.
Qed.

Lemma right_bottom_terms_vanish_witness :
  b2z (rightEdgeTerm (mkRect 0 0 9 9) (mkRect 6 6 12 12)) = 0 /\
  b2z (bottomEdgeTerm (mkRect 0 0 9 9) (mkRect 6 6 12 12)) = 0 /\
  0 <= clipMultiplier (mkRect 0 0 9 9) (mkRect 6 6 12 12) <= 4.
Proof. apply (right_bottom_terms_vanish (mkRect 0 0 9 9) (mkRect 6 6 12 12)); simpl; lia. Defined.

Lemma specMultiplier_eq region clip :
  specMultiplier region clip = clipMultiplier region clip.
Proof.
  unfold specMultiplier, clipMultiplier, leftEdgeTerm, topEdgeTerm,
    rightEdgeTerm, bottomEdgeTerm, fullHeightTerm, fullWidthTerm.
  rewrite !Z.gtb_ltb.
  rewrite (andb_comm (top clip =? top region)). reflexivity.
Qed.

Lemma area32_wrap r : area32 r = wrap (rectArea r).
Proof.
  unfold area32, rectArea, rectWidth, rectHeight, mul, add, sub.
  rewrite !wrap_add_l, wrap_mul_l, wrap_mul_r. reflexivity.
Qed.

Lemma GetClipScore_untouched region clip :
  clipTouches region clip = false -> GetClipScore region clip = 0.
Proof.
  unfold clipTouches, GetClipScore. intros H.
  apply negb_false_iff in H. rewrite H. reflexivity.
Qed.

(** The machine score is the specified score reduced to a 32-bit [int]. *)
Lemma GetClipScore_modular region clip :
  GetClipScore region clip = to_int (specScore region clip).
Proof.
  unfold specScore. destruct (clipTouches region clip) eqn:Ht.
  - unfold GetClipScore. unfold clipTouches in Ht.
    apply negb_true_iff in Ht. rewrite Ht.
    rewrite specMultiplier_eq, to_int_mul_wrap, !area32_wrap.
    unfold sub. rewrite wrap_sub_l, wrap_sub_r.
    apply to_int_mul_wrap_r.
  - rewrite GetClipScore_untouched by assumption. reflexivity.
Qed.

Lemma intersection_area_bounds region clip :
  IsValid region = true -> IsValid clip = true ->
  clipTouches region clip = true ->
  1 <= rectArea (intersection region clip) <= rectArea region.
Proof.
  unfold IsValid, clipTouches, rectArea, rectWidth, rectHeight, intersection.
  simpl. intros Hr Hc Ht. zprop.
  assert (1 <= Z.min (right region) (right clip) - Z.max (left region) (left clip) + 1
          <= right region - left region + 1) by lia.
  assert (1 <= Z.min (bottom region) (bottom clip) - Z.max (top region) (top clip) + 1
          <= bottom region - top region + 1) by lia.
  split; [nia|].
  apply Z.mul_le_mono_nonneg; lia.
Qed.

Lemma specScore_bounds region clip :
  IsValid region = true -> IsValid clip = true ->
  0 <= specScore region clip <= 4 * rectArea region.
Proof.
  intros Hr Hc. unfold specScore.
  destruct (clipTouches region clip) eqn:Ht.
  - pose proof (intersection_area_bounds region clip Hr Hc Ht) as Hi.
    rewrite specMultiplier_eq.
    assert (Hm : 0 <= clipMultiplier region clip <= 4).
    { unfold IsValid in Hr. zprop. apply clipMultiplier_range; lia. }
    split; [apply Z.mul_nonneg_nonneg; lia|].
    transitivity (4 * (rectArea region - rectArea (intersection region clip))); [|lia].
    apply Z.mul_le_mono_nonneg_r; lia.
  - unfold IsValid, rectArea, rectWidth, rectHeight in *. zprop. nia.
Qed.

Lemma GetClipScore_exact region clip :
  IsValid region = true -> IsValid clip = true ->
  4 * rectArea region <= INT_MAX ->
  GetClipScore region clip = specScore region clip.
Proof.
  intros Hr Hc Hb. rewrite GetClipScore_modular.
  apply to_int_small.
  pose proof (specScore_bounds region clip Hr Hc). lia.
Qed.

Lemma GetClipScore_self region : GetClipScore region region = 0.
Proof.
  rewrite GetClipScore_modular. unfold specScore.
  destruct (clipTouches region region) eqn:Ht; [|reflexivity].
  replace (specMultiplier region region) with 0; [reflexivity|].
  unfold clipTouches in Ht. zprop.
  unfold specMultiplier. zcases; simpl; lia.
Qed.

(** C7: the score is 0 when the clip does not touch the region; otherwise
    it is (2 + edge terms - alignment terms) x (region area - intersection
    area), computed on 32-bit words and exactly that product over the
    integers whenever four times the region's area fits an [int]; a clip
    equal to the region scores 0. *)
Theorem GetClipScore_matches_spec (region clip : Rect) :
  (clipTouches region clip = false -> GetClipScore region clip = 0) /\
  (clipTouches region clip = true ->
   GetClipScore region clip
   = to_int (specMultiplier region clip
             * (rectArea region - rectArea (intersection region clip)))) /\
  (clipTouches region clip = true ->
   IsValid region = true -> IsValid clip = true ->
   4 * rectArea region <= INT_MAX ->
   GetClipScore region clip
   = specMultiplier region clip
     * (rectArea region - rectArea (intersection region clip))) /\
  GetClipScore region region = 0.
Proof.
  repeat split.
  - apply GetClipScore_untouched.
  - intros Ht. rewrite GetClipScore_modular. unfold specScore. rewrite Ht. reflexivity.
  - intros Ht Hr Hc Hb. rewrite GetClipScore_exact by assumption.
    unfold specScore. rewrite Ht. reflexivity.
  - apply GetClipScore_self.
Qed.

Lemma GetClipScore_matches_spec_witness :
  GetClipScore (mkRect 0 0 9 9) (mkRect 6 0 9 3) = 252 /\
  specMultiplier (mkRect 0 0 9 9) (mkRect 6 0 9 3)
  * (rectArea (mkRect 0 0 9 9)
     - rectArea (intersection (mkRect 0 0 9 9) (mkRect 6 0 9 3))) = 252.
Proof.
  split; [reflexivity|].
  rewrite <- (proj1 (proj2 (proj2
    (GetClipScore_matches_spec (mkRect 0 0 9 9) (mkRect 6 0 9 3))))).
  - reflexivity.
  - reflexivity.
  - reflexivity.
  - reflexivity.
  - vm_compute. discriminate.
Defined.

End Scorer.

(** ** Cells and coverings *)

Lemma covered_nil x y : ~ covered [] x y.
Proof. intros [r [[] _]]. Qed.

Lemma covered_cons r l x y :
  covered (r :: l) x y <-> inRect r x y \/ covered l x y.
Proof.
  unfold covered. split.
  - intros [r' [[<- | Hin] Hc]]; [left; assumption | right; eauto].
  - intros [Hc | [r' [Hin Hc]]]; [exists r | exists r']; simpl; auto.
Qed.

Lemma covered_app l1 l2 x y :
  covered (l1 ++ l2) x y <-> covered l1 x y \/ covered l2 x y.
Proof.
  unfold covered. split.
  - intros [r [Hin Hc]]. apply in_app_or in Hin. destruct Hin; eauto.
  - intros [[r [Hin Hc]] | [r [Hin Hc]]]; exists r; split; auto using in_or_app.
Qed.

(** Coverage only depends on which rectangles are in the list. *)
Lemma covered_same_members l1 l2 x y :
  (forall r, In r l1 <-> In r l2) -> covered l1 x y <-> covered l2 x y.
Proof.
  intros H. unfold covered. split; intros [r [Hin Hc]]; exists r; split;
    auto; apply H; assumption.
Qed.

(** ** Remainder strips *)

Section Remainders.
Import U32 U32Facts.

Lemma remainders_length i clip : (length (remainders i clip) <= 4)%nat.
Proof.
  unfold remainders. rewrite !length_app.
  repeat match goal with
         | |- context [if ?b then _ else _] => destruct b
         end; simpl; lia.
Qed.

Lemma remainders_covered i clip x y :
  wf_rect i -> wf_rect clip -> overlapsClip clip i = true ->
  covered (remainders i clip) x y <-> inRect i x y /\ ~ inRect clip x y.
Proof.
  intros (Hil & Hit & Hir & Hib) (Hcl & Hct & Hcr & Hcb) Ho.
  unfold in_range in *. unfold overlapsClip in Ho. zprop.
  unfold remainders. rewrite !covered_app.
  assert (Hnil : forall P : Prop, covered [] x y \/ P <-> P).
  { intros P. pose proof (covered_nil x y). tauto. }
  assert (Hnil' : covered [] x y <-> False).
  { pose proof (covered_nil x y). tauto. }
  assert (Hone : forall r, covered [r] x y <-> inRect r x y).
  { intros r. rewrite covered_cons. pose proof (covered_nil x y). tauto. }
  zcases; cbn [andb]; rewrite ?Hone, ?Hnil'; unfold inRect; cbn [left top right bottom];
    rewrite ?sub_exact, ?add_exact by (unfold in_range, modulus in *; lia);
    lia.
Qed.

(** The corner placement of a 4x4 clip in a 10x10 region stages a right
    strip and a bottom strip, and the two share the block below and to the
    right of the clip. *)
Lemma remainders_corner_overlap :
  remainders (mkRect 0 0 9 9) (mkRect 0 0 3 3)
  = [mkRect 4 0 9 9; mkRect 0 4 9 9]
  /\ overlap (mkRect 4 0 9 9) (mkRect 0 4 9 9).
Proof.
  split; [reflexivity|]. exists 4, 4. unfold inRect; simpl. lia.
Qed.

(** C8 (as the claim states it, refuted): packing a 4x4 area into the
    10x10 bin clips the region {0,0,9,9} by {0,0,3,3}, and the strips
    staged from that region are not pairwise non-overlapping. *)
Lemma remainders_not_disjoint :
  GetEmptyRegions tenByTen = [mkRect 0 0 9 9] /\
  fst (TryPackArea tenByTen (mkArea 4 4)) = mkRect 0 0 3 3 /\
  overlapsClip (mkRect 0 0 3 3) (mkRect 0 0 9 9) = true /\
  ~ pairwiseDisjoint (remainders (mkRect 0 0 9 9) (mkRect 0 0 3 3)).
Proof.
  split; [reflexivity|]. split; [reflexivity|]. split; [reflexivity|].
  destruct remainders_corner_overlap as [-> Ho].
  intros H. inversion H as [| a l Hall _]; subst.
  inversion Hall as [| b l' Hb _]; subst. exact (Hb Ho).
Qed.

(** C8 (amended): for a region the clip touches, at most four strips are
    staged and their union is exactly the region minus the clip; the strips
    themselves may overlap. *)
Theorem remainders_exact_difference (i clip : Rect) (x y : Z) :
  wf_rect i -> wf_rect clip -> overlapsClip clip i = true ->
  (length (remainders i clip) <= 4)%nat /\
  (covered (remainders i clip) x y <-> inRect i x y /\ ~ inRect clip x y).
Proof.
  intros Hi Hc Ho. split.
  - apply remainders_length.
  - apply remainders_covered; assumption.
Qed.

Lemma remainders_exact_difference_witness :
  (length (remainders (mkRect 0 0 9 9) (mkRect 2 3 5 5)) <= 4)%nat /\
  (covered (remainders (mkRect 0 0 9 9) (mkRect 2 3 5 5)) 1 4
   <-> inRect (mkRect 0 0 9 9) 1 4 /\ ~ inRect (mkRect 2 3 5 5) 1 4).
Proof.
  apply (remainders_exact_difference (mkRect 0 0 9 9) (mkRect 2 3 5 5) 1 4).
  - unfold wf_rect, in_range, modulus; simpl; lia.
  - unfold wf_rect, in_range, modulus; simpl; lia.
  - reflexivity.
Defined.

End Remainders.

(** ** Extension of a fresh bin *)

(** C3 (the code at the claim's input): extending a fresh bin by {10,10}
    sets the dimensions to {10,10} but records the single free region
    {0,0,10,9}, one column wider than the bin, instead of {0,0,9,9}. *)
Theorem ExtendDimensions_fresh_10_10 :
  GetDimensions (ExtendDimensions fresh (mkArea 10 10)) = mkArea 10 10 /\
  GetEmptyRegions (ExtendDimensions fresh (mkArea 10 10)) = [mkRect 0 0 10 9] /\
  GetEmptyRegions (ExtendDimensions fresh (mkArea 10 10)) <> [mkRect 0 0 9 9].
Proof. repeat split. vm_compute. discriminate. Qed.

(** C4 (the code at a failing input): after the single call
    [ExtendDimensions({10,10})] on a fresh bin a free region reaches column
    10 of a bin whose columns are 0..9. *)
Theorem fresh_extension_leaves_bin :
  exists r,
    In r (GetEmptyRegions (ExtendDimensions fresh (mkArea 10 10))) /\
    ~ right r < width (GetDimensions (ExtendDimensions fresh (mkArea 10 10))).
Proof.
  exists (mkRect 0 0 10 9). split; [left; reflexivity|].
  vm_compute. discriminate.
Qed.

(** ** Rectangles inside a frame *)

Lemma within_wf W H r :
  W <= U32.modulus -> H <= U32.modulus -> within W H r -> wf_rect r.
Proof.
  unfold within, wf_rect, U32.in_range. intros HW HH Hr. lia.
Qed.

Lemma within_valid W H r : within W H r -> IsValid r = true.
Proof. unfold within, IsValid. intros Hr. zprop. lia. Qed.

Lemma within_mono W H W' H' r :
  W <= W' -> H <= H' -> within W H r -> within W' H' r.
Proof. unfold within. intros HW HH Hr. lia. Qed.

Lemma within_contains W H outer inner :
  within W H outer -> contains outer inner -> IsValid inner = true ->
  within W H inner.
Proof. unfold within, contains, IsValid. intros Ho Hc Hv. zprop. lia. Qed.

Lemma Forall_within_wf W H l :
  W <= U32.modulus -> H <= U32.modulus ->
  Forall (within W H) l -> Forall wf_rect l.
Proof.
  intros HW HH. apply Forall_impl. intros r. apply within_wf; assumption.
Qed.

Lemma contains_inRect outer inner x y :
  contains outer inner -> inRect inner x y -> inRect outer x y.
Proof. unfold contains, inRect. lia. Qed.

Lemma valid_has_cell r : IsValid r = true -> inRect r (left r) (top r).
Proof. unfold IsValid, inRect. intros H. zprop. lia. Qed.

(** ** The free-region update *)

Section Update.
Import U32 U32Facts.

Lemma overlapsClip_shared_cell clip i x y :
  inRect i x y -> inRect clip x y -> overlapsClip clip i = true.
Proof. unfold inRect, overlapsClip. intros Hi Hc. zprop. lia. Qed.

Lemma carve_covered clip regions kept staged x y :
  Forall wf_rect regions -> wf_rect clip ->
  carve clip regions = (kept, staged) ->
  covered kept x y \/ covered staged x y
  <-> covered regions x y /\ ~ inRect clip x y.
Proof.
  intros Hwf Hc. revert kept staged.
  induction Hwf as [| i rest Hi Hrest IH]; intros kept staged Hcarve.
  - simpl in Hcarve. inversion Hcarve; subst.
    pose proof (covered_nil x y). tauto.
  - simpl in Hcarve. destruct (carve clip rest) as [kept0 staged0].
    specialize (IH kept0 staged0 eq_refl).
    rewrite (covered_cons i rest).
    destruct (overlapsClip clip i) eqn:Ho; inversion Hcarve; subst; clear Hcarve.
    + rewrite covered_app, (remainders_covered i clip x y Hi Hc Ho). tauto.
    + rewrite covered_cons.
      assert (inRect i x y -> ~ inRect clip x y).
      { intros H1 H2. rewrite (overlapsClip_shared_cell clip i x y H1 H2) in Ho.
        discriminate. }
      tauto.
Qed.

Lemma find_erase_Some p l m rest :
  find_erase p l = Some (m, rest) -> p m = true /\ Permutation l (m :: rest).
Proof.
  revert m rest. induction l as [| r l IH]; intros m rest H; simpl in H.
  - discriminate.
  - destruct (p r) eqn:Hp.
    + inversion H; subst. split; [assumption | apply Permutation_refl].
    + destruct (find_erase p l) as [[m0 l0] |]; [|discriminate].
      inversion H; subst. destruct (IH m l0 eq_refl) as [Hm Hperm].
      split; [assumption|].
      apply Permutation_trans with (r :: m :: l0);
        [apply perm_skip, Hperm | apply perm_swap].
Qed.

Lemma emplace_perm pos x l : Permutation (emplace pos x l) (x :: l).
Proof.
  unfold emplace. apply Permutation_sym.
  rewrite <- (firstn_skipn pos l) at 1. apply Permutation_middle.
Qed.

Lemma boundingBox_inRect m n x y :
  mergeable n m = true ->
  inRect (boundingBox m n) x y <-> inRect m x y \/ inRect n x y.
Proof.
  unfold mergeable, boundingBox, inRect. cbn [left top right bottom].
  intros H. zprop. lia.
Qed.

Lemma covered_perm l1 l2 x y :
  Permutation l1 l2 -> covered l1 x y <-> covered l2 x y.
Proof.
  intros Hp. apply covered_same_members. intros r. split.
  - apply Permutation_in, Hp.
  - apply Permutation_in, Permutation_sym, Hp.
Qed.

Lemma insertRegion_covered regions n x y :
  covered (insertRegion regions n) x y <-> inRect n x y \/ covered regions x y.
Proof.
  unfold insertRegion.
  destruct (find_erase (mergeable n) regions) as [[m rest] |] eqn:Hf.
  - destruct (find_erase_Some _ _ _ _ Hf) as [Hm Hperm].
    rewrite (covered_perm _ _ x y (emplace_perm _ _ _)), covered_cons.
    rewrite (covered_perm _ _ x y Hperm), covered_cons.
    rewrite (boundingBox_inRect m n x y Hm). tauto.
  - rewrite (covered_perm _ _ x y (emplace_perm _ _ _)), covered_cons. tauto.
Qed.

Lemma insertAll_covered staged regions x y :
  covered (insertAll staged regions) x y
  <-> covered staged x y \/ covered regions x y.
Proof.
  unfold insertAll. revert regions.
  induction staged as [| n staged IH]; intros regions; simpl.
  - pose proof (covered_nil x y). tauto.
  - rewrite IH, insertRegion_covered, covered_cons. tauto.
Qed.

(** The update removes exactly the cells of the clip from the free space. *)
Lemma applyClip_covered clip regions x y :
  Forall wf_rect regions -> wf_rect clip ->
  covered (applyClip clip regions) x y
  <-> covered regions x y /\ ~ inRect clip x y.
Proof.
  intros Hwf Hc. unfold applyClip.
  destruct (carve clip regions) as [kept staged] eqn:Hcarve.
  rewrite insertAll_covered.
  rewrite <- (carve_covered clip regions kept staged x y Hwf Hc Hcarve). tauto.
Qed.

(** Frames are kept by the update. *)
Lemma remainders_within W H i clip :
  W <= modulus -> H <= modulus -> within W H i -> wf_rect clip ->
  Forall (within W H) (remainders i clip).
Proof.
  intros HW HH Hi (Hcl & Hct & Hcr & Hcb).
  unfold within, in_range in *. unfold remainders.
  rewrite !Forall_app.
  repeat match goal with
         | |- _ /\ _ => split
         | |- Forall _ (if ?b then _ else _) => destruct b eqn:?
         | |- Forall _ [] => constructor
         | |- Forall _ [_] => constructor
         end;
    cbn [left top right bottom]; zprop;
    rewrite ?sub_exact, ?add_exact by (unfold in_range, modulus in *; lia);
    lia.
Qed.

Lemma carve_within W H clip regions kept staged :
  W <= modulus -> H <= modulus ->
  Forall (within W H) regions -> wf_rect clip ->
  carve clip regions = (kept, staged) ->
  Forall (within W H) kept /\ Forall (within W H) staged.
Proof.
  intros HW HH Hall Hc. revert kept staged.
  induction Hall as [| i rest Hi Hrest IH]; intros kept staged Hcarve;
    simpl in Hcarve.
  - inversion Hcarve; subst. split; constructor.
  - destruct (carve clip rest) as [kept0 staged0].
    destruct (IH kept0 staged0 eq_refl) as [Hk Hs].
    destruct (overlapsClip clip i); inversion Hcarve; subst.
    + split; [assumption|]. apply Forall_app. split; [|assumption].
      apply remainders_within; assumption.
    + split; [constructor|]; assumption.
Qed.

Lemma boundingBox_within W H m n :
  within W H m -> within W H n -> within W H (boundingBox m n).
Proof. unfold within, boundingBox. cbn [left top right bottom]. lia. Qed.

Lemma Forall_perm (P : Rect -> Prop) l1 l2 :
  Permutation l1 l2 -> Forall P l1 -> Forall P l2.
Proof.
  intros Hp Hall. apply Forall_forall. intros r Hr.
  apply (proj1 (Forall_forall P l1) Hall).
  apply Permutation_in with l2; [apply Permutation_sym, Hp | exact Hr].
Qed.

Lemma insertRegion_within W H regions n :
  Forall (within W H) regions -> within W H n ->
  Forall (within W H) (insertRegion regions n).
Proof.
  intros Hall Hn. unfold insertRegion.
  destruct (find_erase (mergeable n) regions) as [[m rest] |] eqn:Hf.
  - destruct (find_erase_Some _ _ _ _ Hf) as [_ Hperm].
    pose proof (Forall_perm _ _ _ Hperm Hall) as Hmr.
    inversion Hmr; subst.
    apply (Forall_perm _ _ _ (Permutation_sym (emplace_perm _ _ _))).
    constructor; [apply boundingBox_within|]; assumption.
  - apply (Forall_perm _ _ _ (Permutation_sym (emplace_perm _ _ _))).
    constructor; assumption.
Qed.

Lemma insertAll_within W H staged regions :
  Forall (within W H) staged -> Forall (within W H) regions ->
  Forall (within W H) (insertAll staged regions).
Proof.
  unfold insertAll. intros Hs. revert regions.
  induction Hs as [| n staged Hn Hs IH]; intros regions Hr; simpl.
  - assumption.
  - apply IH, insertRegion_within; assumption.
Qed.

Lemma applyClip_within W H clip regions :
  W <= modulus -> H <= modulus ->
  Forall (within W H) regions -> wf_rect clip ->
  Forall (within W H) (applyClip clip regions).
Proof.
  intros HW HH Hall Hc. unfold applyClip.
  destruct (carve clip regions) as [kept staged] eqn:Hcarve.
  destruct (carve_within W H clip regions kept staged HW HH Hall Hc Hcarve).
  apply insertAll_within; assumption.
Qed.

End Update.

(** ** The placement search *)

Section SearchInvariant.
Import U32 U32Facts.

Variable regions : list Rect.
Variable Q : Rect -> Prop.

Lemma tryCorners_keeps clips st :
  (forall c, In c clips -> Q c) -> Q (bestRect st) ->
  Q (bestRect (fst (tryCorners regions clips st))).
Proof.
  revert st. induction clips as [| c clips IH]; intros st Hcl Hst; simpl.
  - assumption.
  - destruct (totalScore regions c <? minScore st).
    + destruct (totalScore regions c =? 0); simpl.
      * apply Hcl. left. reflexivity.
      * apply IH; [intros c' Hc'; apply Hcl; right; assumption|].
        simpl. apply Hcl. left. reflexivity.
    + apply IH; [intros c' Hc'; apply Hcl; right; assumption | assumption].
Qed.

Lemma tryCorners_inv clips st :
  (forall c, In c clips -> Q c) ->
  st = noBest \/ Q (bestRect st) ->
  fst (tryCorners regions clips st) = noBest
  \/ Q (bestRect (fst (tryCorners regions clips st))).
Proof.
  revert st. induction clips as [| c clips IH]; intros st Hcl Hst; simpl.
  - assumption.
  - assert (Hc : Q c) by (apply Hcl; left; reflexivity).
    assert (Hcl' : forall c', In c' clips -> Q c')
      by (intros c' Hc'; apply Hcl; right; assumption).
    destruct (totalScore regions c <? minScore st).
    + destruct (totalScore regions c =? 0); simpl.
      * right. assumption.
      * apply IH; [assumption | right; assumption].
    + apply IH; assumption.
Qed.

(** A first corner that scores below [INT_MAX] always displaces the
    initial "no result" value. *)
Lemma tryCorners_finds c clips st :
  (forall c', In c' (c :: clips) -> Q c') ->
  totalScore regions c < INT_MAX ->
  st = noBest \/ Q (bestRect st) ->
  Q (bestRect (fst (tryCorners regions (c :: clips) st))).
Proof.
  intros Hcl Hscore [-> | Hst].
  - simpl. destruct (Z.ltb_spec (totalScore regions c) INT_MAX); [|lia].
    destruct (totalScore regions c =? 0); simpl.
    + apply Hcl. left. reflexivity.
    + apply tryCorners_keeps; [intros c' Hc'; apply Hcl; right; assumption|].
      simpl. apply Hcl. left. reflexivity.
  - apply tryCorners_keeps; assumption.
Qed.

Lemma scanRegions_keeps rs a st :
  (forall r, In r rs -> fits r a = true -> forall c, In c (corners r a) -> Q c) ->
  Q (bestRect st) -> Q (bestRect (scanRegions regions rs a st)).
Proof.
  revert st. induction rs as [| r rs IH]; intros st Hrs Hst; cbn [scanRegions].
  - assumption.
  - assert (Hrs' : forall r', In r' rs -> fits r' a = true ->
                              forall c, In c (corners r' a) -> Q c)
      by (intros r' Hr'; apply Hrs; right; assumption).
    destruct (fits r a) eqn:Hfit; [|apply IH; assumption].
    pose proof (tryCorners_keeps (corners r a) st
                  (Hrs r (or_introl eq_refl) Hfit) Hst) as Hk.
    destruct (tryCorners regions (corners r a) st) as [st' stop]. simpl in Hk.
    destruct stop; [assumption | apply IH; assumption].
Qed.

Lemma scanRegions_inv rs a st :
  (forall r, In r rs -> fits r a = true -> forall c, In c (corners r a) -> Q c) ->
  st = noBest \/ Q (bestRect st) ->
  scanRegions regions rs a st = noBest
  \/ Q (bestRect (scanRegions regions rs a st)).
Proof.
  revert st. induction rs as [| r rs IH]; intros st Hrs Hst; cbn [scanRegions].
  - assumption.
  - assert (Hrs' : forall r', In r' rs -> fits r' a = true ->
                              forall c, In c (corners r' a) -> Q c)
      by (intros r' Hr'; apply Hrs; right; assumption).
    destruct (fits r a) eqn:Hfit; [|apply IH; assumption].
    pose proof (tryCorners_inv (corners r a) st
                  (Hrs r (or_introl eq_refl) Hfit) Hst) as Hk.
    destruct (tryCorners regions (corners r a) st) as [st' stop]. simpl in Hk.
    destruct stop; [assumption | apply IH; assumption].
Qed.

Lemma scanRegions_finds rs a st :
  (forall r, In r rs -> fits r a = true -> forall c, In c (corners r a) -> Q c) ->
  (forall c, Q c -> totalScore regions c < INT_MAX) ->
  (exists r, In r rs /\ fits r a = true) ->
  st = noBest \/ Q (bestRect st) ->
  Q (bestRect (scanRegions regions rs a st)).
Proof.
  revert st. induction rs as [| r rs IH]; intros st Hrs Hscore [r0 [Hin Hfit0]] Hst.
  - destruct Hin.
  - assert (Hrs' : forall r', In r' rs -> fits r' a = true ->
                              forall c, In c (corners r' a) -> Q c)
      by (intros r' Hr'; apply Hrs; right; assumption).
    cbn [scanRegions]. destruct (fits r a) eqn:Hfit.
    + pose proof (Hrs r (or_introl eq_refl) Hfit) as Hcs.
      assert (Hk : Q (bestRect (fst (tryCorners regions (corners r a) st)))).
      { unfold corners in *. apply tryCorners_finds; try assumption.
        apply Hscore, Hcs. left. reflexivity. }
      destruct (tryCorners regions (corners r a) st) as [st' stop]. simpl in Hk.
      destruct stop; [assumption | apply scanRegions_keeps; assumption].
    + destruct Hin as [-> | Hin]; [congruence|].
      apply IH; try assumption. exists r0. split; assumption.
Qed.

Lemma scanRegions_none rs a st :
  (forall r, In r rs -> fits r a = false) -> scanRegions regions rs a st = st.
Proof.
  induction rs as [| r rs IH]; intros Hrs; cbn [scanRegions].
  - reflexivity.
  - rewrite (Hrs r (or_introl eq_refl)). apply IH.
    intros r' Hr'. apply Hrs. right. assumption.
Qed.

End SearchInvariant.

Section Search.
Import U32 U32Facts.

Lemma candidate_corner regions area r a c :
  In r regions -> a = area \/ a = rotate area -> fits r a = true ->
  In c (corners r a) -> candidate regions area c.
Proof. intros. exists r, a. auto. Qed.

(** The search returns the "no result" value or one of the candidates. *)
Lemma search_inv regions area :
  search regions area = noBest
  \/ candidate regions area (bestRect (search regions area)).
Proof.
  unfold search.
  assert (H1 : scanRegions regions regions area noBest = noBest
               \/ candidate regions area
                    (bestRect (scanRegions regions regions area noBest))).
  { apply scanRegions_inv; [|left; reflexivity].
    intros r Hr Hfit c Hc.
    apply (candidate_corner regions area r area c); auto. }
  destruct (minScore (scanRegions regions regions area noBest) =? 0);
    [assumption|].
  apply scanRegions_inv; [|assumption].
  intros r Hr Hfit c Hc.
  apply (candidate_corner regions area r (rotate area) c); auto.
Qed.

Lemma search_none regions area :
  (forall r, In r regions ->
             fits r area = false /\ fits r (rotate area) = false) ->
  search regions area = noBest.
Proof.
  intros H. unfold search.
  assert (H1 : forall st, scanRegions regions regions area st = st).
  { intros st. apply scanRegions_none. intros r Hr. apply H, Hr. }
  assert (H2 : forall st, scanRegions regions regions (rotate area) st = st).
  { intros st. apply scanRegions_none. intros r Hr. apply H, Hr. }
  rewrite H1, H2. reflexivity.
Qed.

Lemma search_finds regions area :
  (forall c, candidate regions area c -> totalScore regions c < INT_MAX) ->
  (exists r, In r regions /\
             (fits r area = true \/ fits r (rotate area) = true)) ->
  candidate regions area (bestRect (search regions area)).
Proof.
  intros Hscore [r [Hin Hfit]]. unfold search.
  assert (Hc1 : forall r', In r' regions -> fits r' area = true ->
                 forall c, In c (corners r' area) -> candidate regions area c).
  { intros r' Hr' Hf c Hc.
    apply (candidate_corner regions area r' area c); auto. }
  assert (Hc2 : forall r', In r' regions -> fits r' (rotate area) = true ->
                 forall c, In c (corners r' (rotate area)) ->
                           candidate regions area c).
  { intros r' Hr' Hf c Hc.
    apply (candidate_corner regions area r' (rotate area) c); auto. }
  pose proof (scanRegions_inv regions (candidate regions area) regions area
                noBest Hc1 (or_introl eq_refl)) as H1.
  destruct Hfit as [Hfit | Hfit].
  - assert (Hq : candidate regions area
                   (bestRect (scanRegions regions regions area noBest))).
    { apply scanRegions_finds; try assumption.
      - exists r. split; assumption.
      - left. reflexivity. }
    destruct (minScore (scanRegions regions regions area noBest) =? 0);
      [assumption|].
    apply scanRegions_keeps; assumption.
  - destruct (minScore (scanRegions regions regions area noBest) =? 0) eqn:Hz.
    + destruct H1 as [H1 | H1]; [|assumption].
      rewrite H1 in Hz. discriminate.
    + apply scanRegions_finds; try assumption.
      exists r. split; assumption.
Qed.

(** Geometry of the four corner clips of a region that passes the size
    test. *)
Lemma corners_geometry r a c :
  goodRect r -> wf_area a -> 0 < width a -> 0 < height a ->
  fits r a = true -> In c (corners r a) ->
  contains r c /\ IsValid c = true /\
  rectWidth c = width a /\ rectHeight c = height a.
Proof.
  unfold goodRect, within, wf_area, fits, in_range.
  intros Hr [Hw Hh] Hw0 Hh0 Hfit Hc.
  rewrite !sub_exact in Hfit by (unfold in_range, modulus in *; lia).
  zprop.
  unfold corners in Hc. simpl in Hc.
  unfold contains, IsValid, rectWidth, rectHeight.
  destruct Hc as [<- | [<- | [<- | [<- | []]]]];
    unfold clipNW, clipNE, clipSW, clipSE; cbn [left top right bottom];
    rewrite ?sub_add_exact, ?add_sub_exact
      by (unfold in_range, modulus in *; lia);
    zprop; lia.
Qed.

Lemma rotate_wf a : wf_area a -> wf_area (rotate a).
Proof. unfold wf_area, rotate. simpl. tauto. Qed.

Lemma candidate_geometry regions area c :
  Forall goodRect regions -> wf_area area ->
  0 < width area -> 0 < height area ->
  candidate regions area c ->
  IsValid c = true /\
  ((rectWidth c = width area /\ rectHeight c = height area)
   \/ (rectWidth c = height area /\ rectHeight c = width area)) /\
  exists r, In r regions /\ contains r c.
Proof.
  intros Hall Hwf Hw Hh (r & a & Hin & Ha & Hfit & Hc).
  pose proof (proj1 (Forall_forall _ _) Hall r Hin) as Hr.
  destruct Ha as [-> | ->].
  - destruct (corners_geometry r area c Hr Hwf Hw Hh Hfit Hc)
      as (Hcont & Hv & Hcw & Hch).
    split; [assumption|]. split; [left; split; assumption|].
    exists r. split; assumption.
  - destruct (corners_geometry r (rotate area) c Hr (rotate_wf _ Hwf) Hh Hw Hfit Hc)
      as (Hcont & Hv & Hcw & Hch).
    split; [assumption|]. split; [right; split; assumption|].
    exists r. split; assumption.
Qed.

End Search.

(** ** Dimension extension *)

Section Extension.
Import U32 U32Facts.

Lemma update_first_Forall (P : Rect -> Prop) p f l l' :
  Forall P l -> (forall m, In m l -> p m = true -> P (f m)) ->
  update_first p f l = Some l' -> Forall P l'.
Proof.
  intros Hall. revert l'. induction Hall as [| r l Hr Hl IH]; intros l' Hf Hu;
    simpl in Hu.
  - discriminate.
  - destruct (p r) eqn:Hp.
    + inversion Hu; subst. constructor; [|assumption].
      apply Hf; [left; reflexivity | assumption].
    + destruct (update_first p f l) as [l0 |]; [|discriminate].
      inversion Hu; subst. constructor; [assumption|].
      apply IH; [|reflexivity]. intros m Hm. apply Hf. right. assumption.
Qed.

(** What the in-place update does to the membership of the list. *)
Lemma update_first_Some p f l l' :
  update_first p f l = Some l' ->
  exists m, In m l /\ p m = true /\ In (f m) l' /\
            (forall z, In z l' -> z = f m \/ In z l) /\
            (forall z, In z l -> z = m \/ In z l').
Proof.
  revert l'. induction l as [| r l IH]; intros l' Hu; simpl in Hu.
  - discriminate.
  - destruct (p r) eqn:Hp.
    + inversion Hu; subst. exists r. simpl. repeat split; auto.
      * intros z [<- | Hz]; auto.
      * intros z [<- | Hz]; auto.
    + destruct (update_first p f l) as [l0 |]; [|discriminate].
      inversion Hu; subst.
      destruct (IH l0 eq_refl) as (m & Hm & Hpm & Hfm & Hback & Hfwd).
      exists m. simpl. repeat split; auto.
      * intros z [<- | Hz]; auto. destruct (Hback z Hz); auto.
      * intros z [<- | Hz]; auto. destruct (Hfwd z Hz); auto.
Qed.

Lemma update_first_None p f l :
  update_first p f l = None -> forall r, In r l -> p r = false.
Proof.
  induction l as [| r0 l IH]; intros Hu r Hr; simpl in Hu.
  - destruct Hr.
  - destruct (p r0) eqn:Hp; [discriminate|].
    destruct (update_first p f l); [discriminate|].
    destruct Hr as [<- | Hr]; [assumption | apply IH; auto].
Qed.

Lemma pushRight_within W' H' ew r :
  W' <= modulus -> within W' H' r -> 0 <= ew -> right r + ew < W' ->
  within W' H' (pushRight ew r).
Proof.
  unfold within, pushRight. cbn [left top right bottom]. intros HW Hr He Hb.
  rewrite add_exact by (unfold in_range, modulus in *; lia). lia.
Qed.

Lemma pushBottom_within W' H' eh r :
  H' <= modulus -> within W' H' r -> 0 <= eh -> bottom r + eh < H' ->
  within W' H' (pushBottom eh r).
Proof.
  unfold within, pushBottom. cbn [left top right bottom]. intros HH Hr He Hb.
  rewrite add_exact by (unfold in_range, modulus in *; lia). lia.
Qed.

(** Width growth keeps every region in a frame that has room for the pushed
    right edges and for the new strip. *)
Lemma growRight_within W' H' dims e rightEdge bottomEdge regions :
  W' <= modulus ->
  Forall (within W' H') regions -> 0 <= width e ->
  (forall r, In r regions -> right r = rightEdge -> right r + width e < W') ->
  within W' H' (mkRect (width dims) 0
                       (sub (add (width dims) (width e)) 1) bottomEdge) ->
  Forall (within W' H') (growRight dims e rightEdge bottomEdge regions).
Proof.
  intros HW Hall He Hroom Hnew. unfold growRight.
  destruct (update_first _ _ regions) as [l' |] eqn:Hu.
  - apply (update_first_Forall _ _ _ _ _ Hall) in Hu; [assumption|].
    intros m Hm Hp. zprop.
    apply pushRight_within; try assumption.
    + apply (proj1 (Forall_forall _ _) Hall m Hm).
    + apply Hroom; [assumption | tauto].
  - apply Forall_app. split; [|constructor; [assumption | constructor]].
    apply Forall_forall. intros z Hz. apply in_map_iff in Hz.
    destruct Hz as (r & <- & Hr).
    pose proof (proj1 (Forall_forall _ _) Hall r Hr) as Hwr.
    destruct (Z.eqb_spec (right r) rightEdge); [|assumption].
    apply pushRight_within; auto.
Qed.

Lemma growDown_within W' H' dims e rightEdge bottomEdge regions :
  H' <= modulus ->
  Forall (within W' H') regions -> 0 <= height e ->
  (forall r, In r regions -> bottom r = bottomEdge -> bottom r + height e < H') ->
  within W' H' (mkRect 0 (height dims) rightEdge
                       (sub (add (height dims) (height e)) 1)) ->
  Forall (within W' H') (growDown dims e rightEdge bottomEdge regions).
Proof.
  intros HH Hall He Hroom Hnew. unfold growDown.
  destruct (update_first _ _ regions) as [l' |] eqn:Hu.
  - apply (update_first_Forall _ _ _ _ _ Hall) in Hu; [assumption|].
    intros m Hm Hp. zprop.
    apply pushBottom_within; try assumption.
    + apply (proj1 (Forall_forall _ _) Hall m Hm).
    + apply Hroom; [assumption | tauto].
  - apply Forall_app. split; [|constructor; [assumption | constructor]].
    apply Forall_forall. intros z Hz. apply in_map_iff in Hz.
    destruct Hz as (r & <- & Hr).
    pose proof (proj1 (Forall_forall _ _) Hall r Hr) as Hwr.
    destruct (Z.eqb_spec (bottom r) bottomEdge); [|assumption].
    apply pushBottom_within; auto.
Qed.

Lemma ExtendDimensions_dimensions b e :
  wf_area (dimensions b) -> extensionInRange b e ->
  dimensions (ExtendDimensions b e)
  = mkArea (width (dimensions b) + width e) (height (dimensions b) + height e).
Proof.
  unfold extensionInRange, wf_area, in_range.
  intros [Hw Hh] ([Hew Heh] & HW & HH).
  unfold ExtendDimensions. cbn [dimensions width height].
  rewrite !add_exact by (unfold in_range; lia). reflexivity.
Qed.

(** Every in-range extension keeps the free regions well-formed and
    non-empty (they may still leave the bin). *)
Lemma ExtendDimensions_good b e :
  wf_area (dimensions b) -> extensionInRange b e ->
  Forall goodRect (emptyRegions b) ->
  Forall goodRect (emptyRegions (ExtendDimensions b e)).
Proof.
  unfold extensionInRange, wf_area, in_range.
  intros [Hw Hh] ([Hew Heh] & HW & HH) Hall.
  unfold ExtendDimensions. cbn [emptyRegions dimensions width height].
  set (W := width (dimensions b)) in *. set (H := height (dimensions b)) in *.
  set (rightEdge := if W >? 0 then sub W 1 else 0).
  set (bottomEdge := if H >? 0 then sub H 1 else 0).
  assert (HrE : 0 <= rightEdge <= W /\ (0 < W -> rightEdge = W - 1)).
  { unfold rightEdge. rewrite Z.gtb_ltb. destruct (Z.ltb_spec 0 W).
    - rewrite sub_exact by (unfold in_range; lia). lia.
    - lia. }
  assert (HbE : 0 <= bottomEdge <= H /\ (0 < H -> bottomEdge = H - 1)).
  { unfold bottomEdge. rewrite Z.gtb_ltb. destruct (Z.ltb_spec 0 H).
    - rewrite sub_exact by (unfold in_range; lia). lia.
    - lia. }
  set (regions1 := if (width e >? 0) && (H >? 0)
                   then growRight (dimensions b) e rightEdge bottomEdge (emptyRegions b)
                   else emptyRegions b).
  assert (H1 : Forall goodRect regions1).
  { unfold regions1. destruct ((width e >? 0) && (H >? 0)) eqn:Hc; [|assumption].
    zprop. apply growRight_within; try assumption; try lia.
    fold W. unfold within. cbn [left top right bottom].
    rewrite sub_add_exact by (unfold in_range; lia).
    unfold modulus in *. lia. }
  rewrite (add_exact W) by (unfold in_range; lia).
  rewrite (add_exact rightEdge) by (unfold in_range; lia).
  destruct ((height e >? 0) && (W + width e >? 0)) eqn:Hc; [|assumption].
  zprop. apply growDown_within; try assumption; try lia.
  cbn [height]. fold H. unfold within. cbn [left top right bottom].
  rewrite sub_add_exact by (unfold in_range; lia).
  unfold modulus in *. lia.
Qed.

End Extension.

(** ** [TryPackArea] on reachable bins *)

Section Packing.
Import U32 U32Facts.

Lemma sentinel_invalid : IsValid sentinel = false.
Proof. reflexivity. Qed.

(** The two ways a call ends. *)
Lemma TryPackArea_cases b a :
  (TryPackArea b a = (sentinel, b))
  \/ (0 < width a /\ 0 < height a /\
      width a <= width (dimensions b) /\ height a <= height (dimensions b) /\
      candidate (emptyRegions b) a (fst (TryPackArea b a)) /\
      IsValid (fst (TryPackArea b a)) = true /\
      snd (TryPackArea b a)
      = mkBin (dimensions b)
              (applyClip (fst (TryPackArea b a)) (emptyRegions b))).
Proof.
  unfold TryPackArea.
  destruct ((width a >? 0) && (height a >? 0)
            && (width a <=? width (dimensions b))
            && (height a <=? height (dimensions b))) eqn:Hg; [|left; reflexivity].
  destruct (IsValid (bestRect (search (emptyRegions b) a))) eqn:Hv;
    [|left; reflexivity].
  right. cbn [fst snd]. zprop.
  destruct (search_inv (emptyRegions b) a) as [Hs | Hs].
  - rewrite Hs in Hv. discriminate.
  - repeat split; tauto.
Qed.

Lemma TryPackArea_dimensions b a :
  dimensions (snd (TryPackArea b a)) = dimensions b.
Proof.
  destruct (TryPackArea_cases b a) as [-> | (_ & _ & _ & _ & _ & _ & ->)];
    reflexivity.
Qed.

Lemma goodRect_wf r : goodRect r -> wf_rect r.
Proof. apply within_wf; lia. Qed.

Lemma Forall_good_wf l : Forall goodRect l -> Forall wf_rect l.
Proof. apply Forall_impl, goodRect_wf. Qed.

Lemma candidate_good regions area c :
  Forall goodRect regions -> wf_area area ->
  0 < width area -> 0 < height area ->
  candidate regions area c -> goodRect c.
Proof.
  intros Hall Hwf Hw Hh Hc.
  destruct (candidate_geometry regions area c Hall Hwf Hw Hh Hc)
    as (Hv & _ & r & Hr & Hcont).
  apply within_contains with r; try assumption.
  apply (proj1 (Forall_forall _ _) Hall r Hr).
Qed.

Lemma TryPackArea_good b a :
  Forall goodRect (emptyRegions b) -> wf_area a ->
  Forall goodRect (emptyRegions (snd (TryPackArea b a))).
Proof.
  intros Hall Hwf.
  destruct (TryPackArea_cases b a)
    as [-> | (Hw & Hh & _ & _ & Hc & _ & ->)]; [assumption|].
  cbn [emptyRegions]. apply applyClip_within; try assumption; try lia.
  apply goodRect_wf, (candidate_good (emptyRegions b) a); assumption.
Qed.

(** Reachable bins hold representable dimensions and well-formed,
    non-empty free regions. *)
Lemma reachable_good b :
  reachable b -> wf_area (dimensions b) /\ Forall goodRect (emptyRegions b).
Proof.
  induction 1 as [| b e Hb [IHd IHr] He | b a Hb [IHd IHr] Ha].
  - split; [unfold wf_area, in_range, modulus; simpl; lia | constructor].
  - split.
    + rewrite ExtendDimensions_dimensions by assumption.
      unfold extensionInRange, wf_area, in_range in *.
      cbn [width height]. lia.
    + apply ExtendDimensions_good; assumption.
  - split.
    + rewrite TryPackArea_dimensions. assumption.
    + apply TryPackArea_good; assumption.
Qed.

(** C9: on a reachable bin, a valid result has the requested width and
    height in one of the two orientations and lies inside one of the free
    regions the bin had when the call started. *)
Theorem TryPackArea_result_in_free_region (b : Bin) (a : Area) :
  reachable b -> wf_area a ->
  IsValid (fst (TryPackArea b a)) = true ->
  ((rectWidth (fst (TryPackArea b a)) = width a /\
    rectHeight (fst (TryPackArea b a)) = height a)
   \/ (rectWidth (fst (TryPackArea b a)) = height a /\
       rectHeight (fst (TryPackArea b a)) = width a))
  /\ exists r, In r (GetEmptyRegions b) /\ contains r (fst (TryPackArea b a)).
Proof.
  intros Hb Hwf Hv. destruct (reachable_good b Hb) as [_ Hall].
  destruct (TryPackArea_cases b a) as [Hs | (Hw & Hh & _ & _ & Hc & _ & _)].
  - rewrite Hs in Hv. discriminate.
  - apply (candidate_geometry (emptyRegions b) a); assumption.
Qed.

(** A successful call removes the cells of its result from the free
    space, so the region list cannot stay the same. *)
Lemma TryPackArea_success_changes b a :
  Forall goodRect (emptyRegions b) -> wf_area a ->
  IsValid (fst (TryPackArea b a)) = true ->
  emptyRegions (snd (TryPackArea b a)) <> emptyRegions b.
Proof.
  intros Hall Hwf Hv Heq.
  destruct (TryPackArea_cases b a) as [Hs | (Hw & Hh & _ & _ & Hc & _ & Hsnd)].
  - rewrite Hs in Hv. discriminate.
  - rewrite Hsnd in Heq. cbn [emptyRegions] in Heq.
    set (c := fst (TryPackArea b a)) in *.
    destruct (candidate_geometry (emptyRegions b) a c Hall Hwf Hw Hh Hc)
      as (_ & _ & r & Hr & Hcont).
    pose proof (valid_has_cell c Hv) as Hcell.
    assert (Hcov : covered (emptyRegions b) (left c) (top c)).
    { exists r. split; [assumption|].
      apply contains_inRect with c; assumption. }
    rewrite <- Heq in Hcov.
    apply applyClip_covered in Hcov.
    + tauto.
    + apply Forall_good_wf, Hall.
    + apply goodRect_wf, (candidate_good (emptyRegions b) a); assumption.
Qed.

Lemma TryPackArea_failure_pure b a :
  IsValid (fst (TryPackArea b a)) = false -> TryPackArea b a = (sentinel, b).
Proof.
  intros Hv.
  destruct (TryPackArea_cases b a) as [Hs | (_ & _ & _ & _ & _ & Hv' & _)].
  - assumption.
  - congruence.
Qed.

(** C6: on a reachable bin, a failing call returns the bin as it was, a
    successful call changes the sequence of free regions (and never the
    dimensions), so the state is unchanged if and only if the call fails. *)
Theorem TryPackArea_unchanged_iff_failure (b : Bin) (a : Area) :
  reachable b -> wf_area a ->
  (IsValid (fst (TryPackArea b a)) = false -> snd (TryPackArea b a) = b) /\
  (IsValid (fst (TryPackArea b a)) = true ->
   GetEmptyRegions (snd (TryPackArea b a)) <> GetEmptyRegions b) /\
  GetDimensions (snd (TryPackArea b a)) = GetDimensions b /\
  (snd (TryPackArea b a) = b <-> IsValid (fst (TryPackArea b a)) = false).
Proof.
  intros Hb Hwf. destruct (reachable_good b Hb) as [_ Hall].
  assert (Hfail : IsValid (fst (TryPackArea b a)) = false ->
                  snd (TryPackArea b a) = b).
  { intros Hv. rewrite (TryPackArea_failure_pure b a Hv). reflexivity. }
  assert (Hok : IsValid (fst (TryPackArea b a)) = true ->
                GetEmptyRegions (snd (TryPackArea b a)) <> GetEmptyRegions b).
  { apply TryPackArea_success_changes; assumption. }
  repeat split; try assumption.
  - apply TryPackArea_dimensions.
  - intros Heq. destruct (IsValid (fst (TryPackArea b a))) eqn:Hv; [|reflexivity].
    exfalso. apply Hok; [reflexivity|]. unfold GetEmptyRegions. rewrite Heq.
    reflexivity.
Qed.

End Packing.

(** ** Sample bins *)

Lemma small_extension_in_range b e :
  (0 <=? width e) && (0 <=? height e)
  && (width e <? U32.modulus) && (height e <? U32.modulus)
  && (width (dimensions b) + width e <? U32.modulus)
  && (height (dimensions b) + height e <? U32.modulus) = true ->
  extensionInRange b e.
Proof.
  intros H. zprop. unfold extensionInRange, wf_area, U32.in_range. lia.
Qed.

Lemma tenByTen_reachable : reachable tenByTen.
Proof.
  unfold tenByTen.
  apply reach_extend; [apply reach_extend; [apply reach_fresh|]|];
    apply small_extension_in_range; reflexivity.
Qed.

Lemma tenByTen_eq : tenByTen = mkBin (mkArea 10 10) [mkRect 0 0 9 9].
Proof. reflexivity. Qed.

Lemma fiveByOne_reachable : reachable fiveByOne.
Proof.
  unfold fiveByOne.
  apply reach_extend; [apply reach_extend; [apply reach_fresh|]|];
    apply small_extension_in_range; reflexivity.
Qed.

Lemma small_area_wf a :
  (0 <=? width a) && (width a <? U32.modulus)
  && (0 <=? height a) && (height a <? U32.modulus) = true -> wf_area a.
Proof. intros H. zprop. unfold wf_area, U32.in_range. lia. Qed.

Lemma TryPackArea_result_in_free_region_witness :
  IsValid (fst (TryPackArea tenByTen (mkArea 4 6))) = true /\
  (((rectWidth (fst (TryPackArea tenByTen (mkArea 4 6))) = 4 /\
     rectHeight (fst (TryPackArea tenByTen (mkArea 4 6))) = 6)
    \/ (rectWidth (fst (TryPackArea tenByTen (mkArea 4 6))) = 6 /\
        rectHeight (fst (TryPackArea tenByTen (mkArea 4 6))) = 4))
   /\ exists r, In r (GetEmptyRegions tenByTen)
                /\ contains r (fst (TryPackArea tenByTen (mkArea 4 6)))).
Proof.
  split; [reflexivity|].
  apply (TryPackArea_result_in_free_region tenByTen (mkArea 4 6)).
  - exact tenByTen_reachable.
  - apply small_area_wf. reflexivity.
  - reflexivity.
Defined.

Lemma TryPackArea_unchanged_iff_failure_witness :
  (IsValid (fst (TryPackArea tenByTen (mkArea 4 6))) = false ->
   snd (TryPackArea tenByTen (mkArea 4 6)) = tenByTen) /\
  (IsValid (fst (TryPackArea tenByTen (mkArea 4 6))) = true ->
   GetEmptyRegions (snd (TryPackArea tenByTen (mkArea 4 6)))
   <> GetEmptyRegions tenByTen) /\
  GetDimensions (snd (TryPackArea tenByTen (mkArea 4 6)))
  = GetDimensions tenByTen /\
  (snd (TryPackArea tenByTen (mkArea 4 6)) = tenByTen
   <-> IsValid (fst (TryPackArea tenByTen (mkArea 4 6))) = false).
Proof.
  apply (TryPackArea_unchanged_iff_failure tenByTen (mkArea 4 6)).
  - exact tenByTen_reachable.
  - apply small_area_wf. reflexivity.
Defined.

(** ** When [TryPackArea] fails *)

Section Failure.
Import U32 U32Facts.

Lemma rectArea_pos r : goodRect r -> 1 <= rectArea r.
Proof.
  unfold goodRect, within, rectArea, rectWidth, rectHeight. intros H. nia.
Qed.

Lemma totalArea_nonneg l : Forall goodRect l -> 0 <= totalArea l.
Proof.
  induction 1 as [| r l Hr Hl IH]; simpl; [lia|].
  pose proof (rectArea_pos r Hr). lia.
Qed.

Lemma accumulate_bounds clip l acc :
  Forall goodRect l -> IsValid clip = true ->
  0 <= acc -> acc + 4 * totalArea l <= INT_MAX ->
  0 <= fold_left (fun score r => add_int score (GetClipScore r clip)) l acc
    <= acc + 4 * totalArea l.
Proof.
  intros Hall Hc. revert acc.
  induction Hall as [| r l Hr Hl IH]; intros acc Hacc Hb.
  - cbn [fold_left totalArea fold_right] in *. lia.
  - cbn [fold_left]. change (totalArea (r :: l)) with (rectArea r + totalArea l) in *.
    pose proof (rectArea_pos r Hr) as Hpos.
    pose proof (totalArea_nonneg l Hl) as Hnn.
    pose proof (within_valid _ _ r Hr) as Hv.
    rewrite GetClipScore_exact by (try assumption; lia).
    pose proof (specScore_bounds r clip Hv Hc) as Hs.
    change (add_int acc (specScore r clip))
      with (to_int (acc + specScore r clip)).
    rewrite (to_int_small (acc + specScore r clip)) by lia.
    specialize (IH (acc + specScore r clip)). lia.
Qed.

Lemma totalScore_bounds regions clip :
  Forall goodRect regions -> IsValid clip = true ->
  4 * totalArea regions < INT_MAX ->
  0 <= totalScore regions clip <= 4 * totalArea regions.
Proof.
  intros Hall Hc Hb. unfold totalScore.
  pose proof (accumulate_bounds clip regions 0 Hall Hc). lia.
Qed.

(** On well-formed data the size test of the search is the comparison of
    extents. *)
Lemma fits_accommodates r a :
  goodRect r -> wf_area a -> 0 < width a -> 0 < height a ->
  fits r a = true <-> accommodates r a.
Proof.
  unfold goodRect, within, wf_area, in_range, fits, accommodates, rectWidth, rectHeight.
  intros Hr [Hw Hh] Hw0 Hh0.
  rewrite !sub_exact by (unfold in_range, modulus in *; lia).
  zprop. lia.
Qed.

Lemma existsb_false_all (f : Rect -> bool) l :
  existsb f l = false -> forall r, In r l -> f r = false.
Proof.
  intros H r Hr. destruct (f r) eqn:Hf; [|reflexivity].
  assert (existsb f l = true) by (apply existsb_exists; eauto). congruence.
Qed.

(** With the guard passed, the call fails exactly when no region passes the
    size test in either orientation. *)
Lemma guarded_failure_iff b a :
  Forall goodRect (emptyRegions b) -> wf_area a ->
  4 * totalArea (emptyRegions b) < INT_MAX ->
  0 < width a -> 0 < height a ->
  width a <= width (dimensions b) -> height a <= height (dimensions b) ->
  IsValid (fst (TryPackArea b a)) = false
  <-> forall r, In r (emptyRegions b) ->
                fits r a = false /\ fits r (rotate a) = false.
Proof.
  intros Hall Hwf Hb Hw Hh HW HH.
  assert (Hg : (width a >? 0) && (height a >? 0)
               && (width a <=? width (dimensions b))
               && (height a <=? height (dimensions b)) = true)
    by (zprop; lia).
  split.
  - intros Hv r Hr.
    destruct (existsb (fun r => fits r a || fits r (rotate a)) (emptyRegions b))
      eqn:He.
    + exfalso. apply existsb_exists in He. destruct He as (r0 & Hr0 & Hf0).
      apply orb_true_iff in Hf0.
      assert (Hc : candidate (emptyRegions b) a
                     (bestRect (search (emptyRegions b) a))).
      { apply search_finds; [|exists r0; split; assumption].
        intros c Hcand.
        destruct (candidate_geometry _ a c Hall Hwf Hw Hh Hcand) as (Hcv & _).
        pose proof (totalScore_bounds (emptyRegions b) c Hall Hcv Hb). lia. }
      destruct (candidate_geometry _ a _ Hall Hwf Hw Hh Hc) as (Hcv & _).
      unfold TryPackArea in Hv. rewrite Hg, Hcv in Hv. cbn [fst] in Hv.
      congruence.
    + pose proof (existsb_false_all _ _ He r Hr) as Hf.
      apply orb_false_iff in Hf. assumption.
  - intros Hnone. unfold TryPackArea. rewrite Hg.
    rewrite (search_none _ _ Hnone). reflexivity.
Qed.

(** C5 (as the claim states it, refuted): the request {1,5} has positive
    sides, exceeds the 5x1 bin as given but not when rotated, and the free
    region {0,0,4,0} accommodates the rotated clip, yet the call returns the
    invalid sentinel. *)
Lemma rotated_request_rejected :
  GetDimensions fiveByOne = mkArea 5 1 /\
  GetEmptyRegions fiveByOne = [mkRect 0 0 4 0] /\
  accommodates (mkRect 0 0 4 0) (rotate (mkArea 1 5)) /\
  width (rotate (mkArea 1 5)) <= width (GetDimensions fiveByOne) /\
  height (rotate (mkArea 1 5)) <= height (GetDimensions fiveByOne) /\
  TryPackArea fiveByOne (mkArea 1 5) = (sentinel, fiveByOne) /\
  IsValid (fst (TryPackArea fiveByOne (mkArea 1 5))) = false.
Proof.
  repeat split; try reflexivity; vm_compute; discriminate.
Qed.

(** C5 (amended): on a reachable bin whose free area keeps the scores
    inside an [int], the call returns an invalid rectangle exactly when the
    requested width or height is 0, or the request as given is wider or
    taller than the bin, or no free region accommodates the request in either
    orientation.  The rotated orientation is never consulted for the first
    two tests. *)
Theorem TryPackArea_failure_conditions (b : Bin) (a : Area) :
  reachable b -> wf_area a ->
  4 * totalArea (GetEmptyRegions b) < INT_MAX ->
  IsValid (fst (TryPackArea b a)) = false
  <-> (width a = 0 \/ height a = 0
       \/ width (GetDimensions b) < width a
       \/ height (GetDimensions b) < height a
       \/ forall r, In r (GetEmptyRegions b) ->
                    ~ accommodates r a /\ ~ accommodates r (rotate a)).
Proof.
  intros Hb Hwf Hbound. destruct (reachable_good b Hb) as [_ Hall].
  unfold GetEmptyRegions, GetDimensions in *.
  destruct ((width a >? 0) && (height a >? 0)
            && (width a <=? width (dimensions b))
            && (height a <=? height (dimensions b))) eqn:Hg.
  - zprop. destruct Hg as [[[Hw Hh] HW] HH].
    rewrite (guarded_failure_iff b a Hall Hwf Hbound Hw Hh HW HH).
    assert (Heq : forall r, In r (emptyRegions b) ->
              (fits r a = false /\ fits r (rotate a) = false)
              <-> (~ accommodates r a /\ ~ accommodates r (rotate a))).
    { intros r Hr. pose proof (proj1 (Forall_forall _ _) Hall r Hr) as Hgr.
      rewrite <- (fits_accommodates r a Hgr Hwf Hw Hh).
      rewrite <- (fits_accommodates r (rotate a) Hgr (rotate_wf a Hwf) Hh Hw).
      destruct (fits r a), (fits r (rotate a)); intuition congruence. }
    split.
    + intros Hnone. do 4 right. intros r Hr. apply Heq; auto.
    + intros [H0 | [H0 | [H0 | [H0 | Hnone]]]]; try lia.
      intros r Hr. apply Heq; auto.
  - unfold TryPackArea. rewrite Hg. cbn [fst].
    split; [|reflexivity]. intros _.
    destruct Hwf as [Hw Hh]. unfold in_range in *. zprop. lia.
Qed.

Lemma TryPackArea_failure_conditions_witness :
  4 * totalArea (GetEmptyRegions tenByTen) < INT_MAX /\
  (IsValid (fst (TryPackArea tenByTen (mkArea 11 2))) = false
   <-> (width (mkArea 11 2) = 0 \/ height (mkArea 11 2) = 0
        \/ width (GetDimensions tenByTen) < width (mkArea 11 2)
        \/ height (GetDimensions tenByTen) < height (mkArea 11 2)
        \/ forall r, In r (GetEmptyRegions tenByTen) ->
                     ~ accommodates r (mkArea 11 2) /\ ~ accommodates r (rotate (mkArea 11 2)))).
Proof.
  split; [reflexivity|].
  apply (TryPackArea_failure_conditions tenByTen (mkArea 11 2)).
  - exact tenByTen_reachable.
  - apply small_area_wf. reflexivity.
  - reflexivity.
Defined.

End Failure.

(** ** Cells gained by an extension *)

Section ExtensionCells.
Import U32 U32Facts.

Lemma pushRight_cells W H ew r x y :
  within W H r -> right r = W - 1 -> 0 <= ew -> W + ew <= modulus ->
  inRect (pushRight ew r) x y
  <-> inRect r x y \/ (W <= x < W + ew /\ top r <= y <= bottom r).
Proof.
  unfold within, pushRight, inRect. cbn [left top right bottom].
  intros Hr Hedge He Hb.
  rewrite add_exact by (unfold in_range, modulus in *; lia). lia.
Qed.

Lemma pushBottom_cells W H eh r x y :
  within W H r -> bottom r = H - 1 -> 0 <= eh -> H + eh <= modulus ->
  inRect (pushBottom eh r) x y
  <-> inRect r x y \/ (left r <= x <= right r /\ H <= y < H + eh).
Proof.
  unfold within, pushBottom, inRect. cbn [left top right bottom].
  intros Hr Hedge He Hb.
  rewrite add_exact by (unfold in_range, modulus in *; lia). lia.
Qed.

(** Width growth adds exactly the new columns to the free space. *)
Lemma growRight_covered dims e rightEdge bottomEdge regions x y :
  let W := width dims in
  let H := height dims in
  Forall (within W H) regions ->
  0 < width e -> 0 <= W -> W + width e < modulus -> 0 < H -> H <= modulus ->
  (0 < W -> rightEdge = W - 1) -> bottomEdge = H - 1 ->
  covered (growRight dims e rightEdge bottomEdge regions) x y
  <-> covered regions x y \/ (W <= x < W + width e /\ 0 <= y < H).
Proof.
  intros W H Hall He HW0 HW HH0 HH HrE HbE. unfold growRight. fold W.
  assert (Hin : forall r, In r regions -> within W H r)
    by (apply Forall_forall; assumption).
  assert (Hedge : forall r, In r regions -> right r = rightEdge ->
                            right r = W - 1).
  { intros r Hr Heq. pose proof (Hin r Hr) as Hw. unfold within in Hw. lia. }
  destruct (update_first _ _ regions) as [l' |] eqn:Hu.
  - destruct (update_first_Some _ _ _ _ Hu) as (m & Hm & Hp & Hfm & Hback & Hfwd).
    zprop. destruct Hp as [Hp1 Hp2].
    pose proof (Hin m Hm) as Hwm. pose proof (Hedge m Hm Hp1) as Hm1.
    assert (Hspan : top m = 0 /\ bottom m = H - 1).
    { unfold within in Hwm.
      rewrite sub_exact in Hp2 by (unfold in_range, modulus in *; lia). lia. }
    pose proof (pushRight_cells W H (width e) m x y Hwm Hm1
                  ltac:(lia) ltac:(lia)) as Hcells.
    split.
    + intros (z & Hz & Hc). destruct (Hback z Hz) as [-> | Hz'].
      * apply Hcells in Hc.
        destruct Hc as [Hc | Hc]; [left; exists m; auto | right; lia].
      * left. exists z. auto.
    + intros [(z & Hz & Hc) | Hstrip].
      * destruct (Hfwd z Hz) as [-> | Hz'].
        -- exists (pushRight (width e) m). split; [assumption|].
           apply Hcells. left. assumption.
        -- exists z. auto.
      * exists (pushRight (width e) m). split; [assumption|].
        apply Hcells. right. lia.
  - rewrite covered_app. split.
    + intros [(z & Hz & Hc) | (z & [<- | []] & Hc)].
      * apply in_map_iff in Hz. destruct Hz as (r & <- & Hr).
        destruct (Z.eqb_spec (right r) rightEdge) as [Heq | Hne].
        -- pose proof (Hin r Hr) as Hwr.
           apply (pushRight_cells W H (width e) r x y Hwr (Hedge r Hr Heq)
                    ltac:(lia) ltac:(lia)) in Hc.
           destruct Hc as [Hc | Hc]; [left; exists r; auto|].
           right. unfold within in Hwr. lia.
        -- left. exists r. auto.
      * right. unfold inRect in Hc. cbn [left top right bottom] in Hc.
        rewrite sub_add_exact in Hc by (unfold in_range, modulus in *; lia).
        lia.
    + intros [(r & Hr & Hc) | Hstrip].
      * left.
        exists (if right r =? rightEdge then pushRight (width e) r else r).
        split; [apply in_map_iff; exists r; auto|].
        destruct (Z.eqb_spec (right r) rightEdge) as [Heq | Hne]; [|assumption].
        apply (pushRight_cells W H (width e) r x y (Hin r Hr) (Hedge r Hr Heq)
                 ltac:(lia) ltac:(lia)).
        left. assumption.
      * right. eexists. split; [left; reflexivity|].
        unfold inRect. cbn [left top right bottom].
        rewrite sub_add_exact by (unfold in_range, modulus in *; lia). lia.
Qed.

(** Height growth adds exactly the new rows to the free space, provided the
    right edge it is given is the last column. *)
Lemma growDown_covered dims e rightEdge bottomEdge regions x y :
  let W := width dims in
  let H := height dims in
  Forall (within W H) regions ->
  0 < height e -> 0 <= H -> H + height e < modulus -> 0 < W -> W <= modulus ->
  rightEdge = W - 1 -> (0 < H -> bottomEdge = H - 1) ->
  covered (growDown dims e rightEdge bottomEdge regions) x y
  <-> covered regions x y \/ (0 <= x < W /\ H <= y < H + height e).
Proof.
  intros W H Hall He HH0 HH HW0 HW HrE HbE. unfold growDown. fold H.
  assert (Hin : forall r, In r regions -> within W H r)
    by (apply Forall_forall; assumption).
  assert (Hedge : forall r, In r regions -> bottom r = bottomEdge ->
                            bottom r = H - 1).
  { intros r Hr Heq. pose proof (Hin r Hr) as Hw. unfold within in Hw. lia. }
  destruct (update_first _ _ regions) as [l' |] eqn:Hu.
  - destruct (update_first_Some _ _ _ _ Hu) as (m & Hm & Hp & Hfm & Hback & Hfwd).
    zprop. destruct Hp as [Hp1 Hp2].
    pose proof (Hin m Hm) as Hwm. pose proof (Hedge m Hm Hp1) as Hm1.
    assert (Hspan : left m = 0 /\ right m = W - 1).
    { unfold within in Hwm.
      rewrite sub_exact in Hp2 by (unfold in_range, modulus in *; lia). lia. }
    pose proof (pushBottom_cells W H (height e) m x y Hwm Hm1
                  ltac:(lia) ltac:(lia)) as Hcells.
    split.
    + intros (z & Hz & Hc). destruct (Hback z Hz) as [-> | Hz'].
      * apply Hcells in Hc.
        destruct Hc as [Hc | Hc]; [left; exists m; auto | right; lia].
      * left. exists z. auto.
    + intros [(z & Hz & Hc) | Hstrip].
      * destruct (Hfwd z Hz) as [-> | Hz'].
        -- exists (pushBottom (height e) m). split; [assumption|].
           apply Hcells. left. assumption.
        -- exists z. auto.
      * exists (pushBottom (height e) m). split; [assumption|].
        apply Hcells. right. lia.
  - rewrite covered_app. split.
    + intros [(z & Hz & Hc) | (z & [<- | []] & Hc)].
      * apply in_map_iff in Hz. destruct Hz as (r & <- & Hr).
        destruct (Z.eqb_spec (bottom r) bottomEdge) as [Heq | Hne].
        -- pose proof (Hin r Hr) as Hwr.
           apply (pushBottom_cells W H (height e) r x y Hwr (Hedge r Hr Heq)
                    ltac:(lia) ltac:(lia)) in Hc.
           destruct Hc as [Hc | Hc]; [left; exists r; auto|].
           right. unfold within in Hwr. lia.
        -- left. exists r. auto.
      * right. unfold inRect in Hc. cbn [left top right bottom] in Hc.
        rewrite sub_add_exact in Hc by (unfold in_range, modulus in *; lia).
        lia.
    + intros [(r & Hr & Hc) | Hstrip].
      * left.
        exists (if bottom r =? bottomEdge then pushBottom (height e) r else r).
        split; [apply in_map_iff; exists r; auto|].
        destruct (Z.eqb_spec (bottom r) bottomEdge) as [Heq | Hne]; [|assumption].
        apply (pushBottom_cells W H (height e) r x y (Hin r Hr) (Hedge r Hr Heq)
                 ltac:(lia) ltac:(lia)).
        left. assumption.
      * right. eexists. split; [left; reflexivity|].
        unfold inRect. cbn [left top right bottom].
        rewrite sub_add_exact by (unfold in_range, modulus in *; lia). lia.
Qed.

End ExtensionCells.

(** ** The bookkeeping invariant *)

Section Accounting.
Import U32 U32Facts.

(** An in-range extension that does not grow the bin from zero width in
    both directions keeps the free regions inside the new bin and adds
    exactly the cells the bin gains. *)
Lemma ExtendDimensions_frame b e :
  let W := width (dimensions b) in
  let H := height (dimensions b) in
  wf_area (dimensions b) -> extensionInRange b e -> ~ growsFromZeroWidth b e ->
  Forall (within W H) (emptyRegions b) ->
  Forall (within (W + width e) (H + height e))
         (emptyRegions (ExtendDimensions b e))
  /\ forall x y,
       covered (emptyRegions (ExtendDimensions b e)) x y
       <-> covered (emptyRegions b) x y
           \/ ((0 <= x < W + width e /\ 0 <= y < H + height e)
               /\ ~ (0 <= x < W /\ 0 <= y < H)).
Proof.
  intros W H Hwf Hext Hslip Hall.
  unfold extensionInRange, wf_area, in_range, growsFromZeroWidth in *.
  fold W H in Hwf, Hext, Hslip.
  destruct Hwf as [Hw Hh]. destruct Hext as ([Hew Heh] & HW & HH).
  unfold ExtendDimensions. cbn [emptyRegions dimensions width height].
  fold W H.
  set (rightEdge := if W >? 0 then sub W 1 else 0).
  set (bottomEdge := if H >? 0 then sub H 1 else 0).
  assert (HrE : 0 <= rightEdge <= W /\ (0 < W -> rightEdge = W - 1)
                /\ (W = 0 -> rightEdge = 0)).
  { unfold rightEdge. rewrite Z.gtb_ltb. destruct (Z.ltb_spec 0 W).
    - rewrite sub_exact by (unfold in_range; lia). lia.
    - lia. }
  assert (HbE : 0 <= bottomEdge <= H /\ (0 < H -> bottomEdge = H - 1)).
  { unfold bottomEdge. rewrite Z.gtb_ltb. destruct (Z.ltb_spec 0 H).
    - rewrite sub_exact by (unfold in_range; lia). lia.
    - lia. }
  clearbody rightEdge bottomEdge.
  set (regions1 := if (width e >? 0) && (H >? 0)
                   then growRight (dimensions b) e rightEdge bottomEdge (emptyRegions b)
                   else emptyRegions b).
  assert (Hin : forall r, In r (emptyRegions b) -> within W H r)
    by (apply Forall_forall; assumption).
  assert (A1 : Forall (within (W + width e) H) regions1).
  { unfold regions1. destruct ((width e >? 0) && (H >? 0)) eqn:Hc.
    - zprop. apply growRight_within; try lia.
      + revert Hall. apply Forall_impl. intros r. apply within_mono; lia.
      + intros r Hr _. pose proof (Hin r Hr) as Hwr. unfold within in Hwr. lia.
      + fold W. unfold within. cbn [left top right bottom].
        rewrite sub_add_exact by (unfold in_range; lia). lia.
    - revert Hall. apply Forall_impl. intros r. apply within_mono; lia. }
  assert (A2 : forall x y, covered regions1 x y
                 <-> covered (emptyRegions b) x y
                     \/ (W <= x < W + width e /\ 0 <= y < H)).
  { intros x y. unfold regions1.
    destruct ((width e >? 0) && (H >? 0)) eqn:Hc.
    - zprop. apply growRight_covered; fold W H; try assumption; lia.
    - zprop. split; [tauto|]. intros [Hc' | Hc']; [assumption | lia]. }
  clearbody regions1.
  rewrite (add_exact W) by (unfold in_range; lia).
  rewrite (add_exact rightEdge) by (unfold in_range; lia).
  destruct ((height e >? 0) && (W + width e >? 0)) eqn:Hc.
  - zprop.
    assert (Hr1 : rightEdge + width e = W + width e - 1) by lia.
    split.
    + apply growDown_within; try lia.
      * revert A1. apply Forall_impl. intros r. apply within_mono; lia.
      * intros r Hr _.
        pose proof (proj1 (Forall_forall _ _) A1 r Hr) as Hwr.
        unfold within in Hwr. lia.
      * cbn [height]. fold H. unfold within. cbn [left top right bottom].
        rewrite sub_add_exact by (unfold in_range; lia). lia.
    + intros x y.
      rewrite (growDown_covered (mkArea (W + width e) H) e
                 (rightEdge + width e) bottomEdge regions1 x y);
        cbn [width height]; try assumption; try lia.
      rewrite A2. generalize (covered (emptyRegions b) x y). intros C.
      intuition lia.
  - split.
    + revert A1. apply Forall_impl. intros r. apply within_mono; lia.
    + intros x y. rewrite A2. zprop.
      generalize (covered (emptyRegions b) x y). intros C.
      intuition lia.
Qed.

Lemma pairwiseDisjoint_cons c placed :
  (forall p, In p placed -> ~ overlap c p) -> pairwiseDisjoint placed ->
  pairwiseDisjoint (c :: placed).
Proof.
  intros Hc Hp. constructor; [|assumption].
  apply Forall_forall. assumption.
Qed.

Lemma fresh_accounted : accounted fresh [].
Proof.
  unfold accounted, inBin, wf_area, in_range, modulus. simpl.
  repeat split; try lia; try constructor.
  intros x y Hc. exfalso. exact (covered_nil x y Hc).
Qed.

Lemma ExtendDimensions_accounted b placed e :
  accounted b placed -> extensionInRange b e -> ~ growsFromZeroWidth b e ->
  accounted (ExtendDimensions b e) placed.
Proof.
  intros (Hwf & Hfree & Hplaced & Hall & Hexcl & Hdisj) Hext Hslip.
  destruct (ExtendDimensions_frame b e Hwf Hext Hslip Hfree) as [Hfr Hcov].
  pose proof (ExtendDimensions_dimensions b e Hwf Hext) as Hd.
  assert (Hin : forall x y, covered placed x y ->
                  0 <= x < width (dimensions b) /\ 0 <= y < height (dimensions b)).
  { intros x y (p & Hp & Hc).
    pose proof (proj1 (Forall_forall _ _) Hplaced p Hp) as Hw.
    unfold within, inRect in *. lia. }
  unfold extensionInRange, wf_area, in_range in Hext, Hwf.
  unfold accounted, inBin. rewrite Hd. cbn [width height].
  split; [unfold wf_area, in_range; cbn [width height]; lia|].
  split; [assumption|].
  split; [revert Hplaced; apply Forall_impl; intros r; apply within_mono; lia|].
  split; [|split; [|assumption]].
  - intros x y Hxy. specialize (Hcov x y). specialize (Hall x y). unfold inBin in Hall.
    destruct (Z_lt_dec x (width (dimensions b)));
      destruct (Z_lt_dec y (height (dimensions b))); try tauto;
      left; apply Hcov; right; lia.
  - intros x y Hc Hp. apply Hcov in Hc. destruct Hc as [Hc | Hc].
    + exact (Hexcl x y Hc Hp).
    + apply Hin in Hp. lia.
Qed.

Lemma TryPackArea_accounted b placed a :
  accounted b placed -> wf_area a ->
  accounted (snd (TryPackArea b a))
            (if IsValid (fst (TryPackArea b a))
             then fst (TryPackArea b a) :: placed else placed).
Proof.
  intros (Hwf & Hfree & Hplaced & Hall & Hexcl & Hdisj) Ha.
  destruct (TryPackArea_cases b a)
    as [-> | (Hw & Hh & HW & HH & Hc & Hv & Hsnd)].
  - cbn [fst snd]. rewrite sentinel_invalid.
    unfold accounted. auto 10.
  - rewrite Hv, Hsnd. set (c := fst (TryPackArea b a)) in *.
    assert (HWm : width (dimensions b) <= modulus)
      by (unfold wf_area, in_range in Hwf; lia).
    assert (HHm : height (dimensions b) <= modulus)
      by (unfold wf_area, in_range in Hwf; lia).
    assert (Hgood : Forall goodRect (emptyRegions b)).
    { revert Hfree. apply Forall_impl. intros r. apply within_mono; assumption. }
    destruct (candidate_geometry (emptyRegions b) a c Hgood Ha Hw Hh Hc)
      as (_ & _ & r & Hr & Hcont).
    pose proof (proj1 (Forall_forall _ _) Hfree r Hr) as Hwr.
    assert (Hcw : within (width (dimensions b)) (height (dimensions b)) c)
      by (apply within_contains with r; assumption).
    assert (Hcwf : wf_rect c) by (apply (within_wf _ _ c HWm HHm Hcw)).
    assert (Hcov : forall x y,
               covered (applyClip c (emptyRegions b)) x y
               <-> covered (emptyRegions b) x y /\ ~ inRect c x y).
    { intros x y. apply applyClip_covered; [|assumption].
      apply Forall_good_wf, Hgood. }
    assert (Hcfree : forall x y, inRect c x y -> covered (emptyRegions b) x y).
    { intros x y Hxy. exists r. split; [assumption|].
      apply contains_inRect with c; assumption. }
    unfold accounted, inBin. cbn [dimensions emptyRegions].
    split; [assumption|].
    split; [apply applyClip_within; assumption|].
    split; [constructor; assumption|].
    split; [|split].
    + intros x y Hxy. rewrite Hcov, covered_cons.
      destruct (Hall x y Hxy) as [Hf | Hp]; [|tauto].
      unfold inRect.
      destruct (Z_le_dec (left c) x); destruct (Z_le_dec x (right c));
        destruct (Z_le_dec (top c) y); destruct (Z_le_dec y (bottom c));
        try (left; split; [assumption | lia]).
      right. left. lia.
    + intros x y Hf Hp. apply Hcov in Hf. destruct Hf as [Hf Hnc].
      apply covered_cons in Hp. destruct Hp as [Hp | Hp]; [tauto|].
      exact (Hexcl x y Hf Hp).
    + apply pairwiseDisjoint_cons; [|assumption].
      intros p Hp (x & y & Hcx & Hpx).
      apply (Hexcl x y (Hcfree x y Hcx)). exists p. auto.
Qed.

(** Every run that [history] describes keeps the books. *)
Lemma history_accounted b placed : history b placed -> accounted b placed.
Proof.
  induction 1 as [| b placed e Hh IH He Hs | b placed a Hh IH Ha].
  - apply fresh_accounted.
  - apply ExtendDimensions_accounted; assumption.
  - apply TryPackArea_accounted; assumption.
Qed.

End Accounting.

(** ** Counting cells *)

Section Counting.
Import U32 U32Facts.

Lemma inRectb_spec r x y : inRectb r x y = true <-> inRect r x y.
Proof. unfold inRectb, inRect. zprop. lia. Qed.

Lemma coveredb_spec l x y : coveredb l x y = true <-> covered l x y.
Proof.
  unfold coveredb, covered. rewrite existsb_exists.
  split; intros (r & Hr & Hc); exists r; split; auto; apply inRectb_spec; auto.
Qed.

Lemma in_zrange n x : In x (zrange n) <-> 0 <= x < n.
Proof.
  unfold zrange. rewrite in_map_iff. split.
  - intros (k & <- & Hk). apply in_seq in Hk. lia.
  - intros Hx. exists (Z.to_nat x). split; [lia|]. apply in_seq. lia.
Qed.

Lemma in_cells W H x y : In (x, y) (cells W H) <-> 0 <= x < W /\ 0 <= y < H.
Proof. unfold cells. rewrite in_prod_iff, !in_zrange. tauto. Qed.

Lemma length_zrange n : 0 <= n -> Z.of_nat (length (zrange n)) = n.
Proof. intros Hn. unfold zrange. rewrite length_map, length_seq. lia. Qed.

Lemma length_cells W H :
  0 <= W -> 0 <= H -> Z.of_nat (length (cells W H)) = W * H.
Proof.
  intros HW HH. unfold cells.
  rewrite length_prod, Nat2Z.inj_mul, !length_zrange by assumption.
  reflexivity.
Qed.

(** Two predicates that split a list have counts that add up to its
    length. *)
Lemma filter_complement {A} (f g : A -> bool) l :
  (forall c, In c l -> f c = negb (g c)) ->
  (length (filter f l) + length (filter g l) = length l)%nat.
Proof.
  induction l as [| c l IH]; intros H; simpl; [reflexivity|].
  assert (IH' : (length (filter f l) + length (filter g l) = length l)%nat)
    by (apply IH; intros c' Hc'; apply H; right; assumption).
  rewrite (H c (or_introl eq_refl)).
  destruct (g c); simpl; lia.
Qed.

(** Counts of predicates that never hold together add up. *)
Lemma filter_disjoint_union {A} (f g : A -> bool) l :
  (forall c, In c l -> f c = true -> g c = false) ->
  length (filter (fun c => f c || g c) l)
  = (length (filter f l) + length (filter g l))%nat.
Proof.
  induction l as [| c l IH]; intros H; simpl; [reflexivity|].
  assert (IH' : length (filter (fun c => f c || g c) l)
                = (length (filter f l) + length (filter g l))%nat)
    by (apply IH; intros c' Hc'; apply H; right; assumption).
  pose proof (H c (or_introl eq_refl)) as Hc.
  destruct (f c); simpl.
  - rewrite Hc by reflexivity. simpl. lia.
  - destruct (g c); simpl; lia.
Qed.

Lemma filter_list_prod {A B} (f : A -> bool) (g : B -> bool) xs ys :
  filter (fun c => f (fst c) && g (snd c)) (list_prod xs ys)
  = list_prod (filter f xs) (filter g ys).
Proof.
  induction xs as [| x xs IH]; simpl; [reflexivity|].
  rewrite filter_app, IH.
  assert (Hrow : filter (fun c : A * B => f (fst c) && g (snd c))
                        (map (fun y => (x, y)) ys)
                 = if f x then map (fun y => (x, y)) (filter g ys) else []).
  { clear IH. induction ys as [| y ys IHy]; simpl.
    - destruct (f x); reflexivity.
    - rewrite IHy. destruct (f x), (g y); reflexivity. }
  rewrite Hrow. destruct (f x); reflexivity.
Qed.

(** The number of integers of [0 .. n-1] in the interval [[lo, hi]]. *)
Lemma count_interval lo hi (n : nat) :
  0 <= lo ->
  Z.of_nat (length (filter (fun x => (lo <=? x) && (x <=? hi))
                           (map Z.of_nat (seq 0 n))))
  = Z.max 0 (Z.min (Z.of_nat n) (hi + 1) - lo).
Proof.
  intros Hlo. induction n as [| n IH].
  - simpl. lia.
  - rewrite seq_S, map_app, filter_app, length_app, Nat2Z.inj_add, IH.
    cbn [Nat.add map filter].
    destruct (Z.leb_spec lo (Z.of_nat n)); destruct (Z.leb_spec (Z.of_nat n) hi);
      cbn [andb length]; lia.
Qed.

Lemma count_interval_zrange lo hi n :
  0 <= lo -> lo <= hi -> hi < n ->
  Z.of_nat (length (filter (fun x => (lo <=? x) && (x <=? hi)) (zrange n)))
  = hi - lo + 1.
Proof.
  intros Hlo Hle Hhi. unfold zrange. rewrite count_interval by assumption. lia.
Qed.

(** A rectangle inside the grid holds as many cells as its area. *)
Lemma countCells_rect W H r :
  within W H r -> countCells (inRectb r) W H = rectArea r.
Proof.
  unfold within. intros Hr. unfold countCells, cells.
  rewrite (filter_ext _ (fun c => ((left r <=? fst c) && (fst c <=? right r))
                                  && ((top r <=? snd c) && (snd c <=? bottom r)))).
  - rewrite (filter_list_prod (fun x => (left r <=? x) && (x <=? right r))
                              (fun y => (top r <=? y) && (y <=? bottom r))).
    rewrite length_prod, Nat2Z.inj_mul, !count_interval_zrange by lia.
    reflexivity.
  - intros c. unfold inRectb. rewrite !andb_assoc. reflexivity.
Qed.

(** Pairwise disjoint rectangles inside the grid cover as many cells as
    the sum of their areas. *)
Lemma countCells_disjoint W H l :
  Forall (within W H) l -> pairwiseDisjoint l ->
  countCells (coveredb l) W H = totalArea l.
Proof.
  intros Hall Hdisj. induction Hdisj as [| p l Hp Hl IH].
  - unfold countCells, coveredb. cbn [existsb totalArea fold_right].
    induction (cells W H); simpl; auto.
  - inversion Hall as [| p' l' Hwp Hwl]; subst.
    cbn [totalArea fold_right]. fold (totalArea l).
    rewrite <- (IH Hwl), <- (countCells_rect W H p Hwp).
    unfold countCells, coveredb. cbn [existsb].
    rewrite <- Nat2Z.inj_add. f_equal.
    apply (filter_disjoint_union (fun c => inRectb p (fst c) (snd c))
             (fun c => existsb (fun r => inRectb r (fst c) (snd c)) l)).
    intros c _ Hc. destruct (existsb _ l) eqn:He; [|reflexivity].
    exfalso. apply existsb_exists in He. destruct He as (q & Hq & Hcq).
    apply (proj1 (Forall_forall _ _) Hp q Hq).
    exists (fst c), (snd c). split; apply inRectb_spec; assumption.
Qed.

(** With the books kept, the free cells and the placed areas fill the
    bin. *)
Lemma accounted_cell_count b placed :
  accounted b placed ->
  freeCells b + totalArea placed
  = width (dimensions b) * height (dimensions b).
Proof.
  intros (Hwf & Hfree & Hplaced & Hall & Hexcl & Hdisj).
  unfold wf_area, in_range in Hwf.
  rewrite <- (countCells_disjoint _ _ placed Hplaced Hdisj).
  rewrite <- (length_cells (width (dimensions b)) (height (dimensions b)))
    by lia.
  unfold freeCells, countCells. rewrite <- Nat2Z.inj_add. f_equal.
  apply filter_complement. intros [x y] Hc. cbn [fst snd].
  apply in_cells in Hc.
  destruct (coveredb placed x y) eqn:Hp; cbn [negb].
  - destruct (coveredb (emptyRegions b) x y) eqn:Hf; [|reflexivity].
    exfalso. apply coveredb_spec in Hp, Hf. exact (Hexcl x y Hf Hp).
  - apply coveredb_spec. destruct (Hall x y Hc) as [Hf | Hp']; [assumption|].
    apply coveredb_spec in Hp'. congruence.
Qed.

End Counting.

(** ** Runs from a fresh bin *)

Section Runs.
Import U32 U32Facts.

Lemma tenByTen_history : history tenByTen [].
Proof.
  unfold tenByTen.
  apply hist_extend; [apply hist_extend; [apply hist_fresh | |] | |];
    try (apply small_extension_in_range; reflexivity);
    unfold growsFromZeroWidth; cbn [width height]; lia.
Qed.

Lemma packedOnce_history : history packedOnce [mkRect 0 0 3 3].
Proof.
  exact (hist_pack tenByTen [] (mkArea 4 4) tenByTen_history
           (small_area_wf (mkArea 4 4) eq_refl)).
Qed.

(** C1 (as the claim states it, refuted): after extending a fresh bin to
    10x10 and packing a 4x4 area, the two free regions {4,0,9,9} and
    {0,4,9,9} share the cells of [4..9] x [4..9]. *)
Lemma free_regions_overlap :
  packedOnce = run [OpExtend (mkArea 10 0); OpExtend (mkArea 0 10);
                    OpPack (mkArea 4 4)] /\
  GetEmptyRegions packedOnce = [mkRect 4 0 9 9; mkRect 0 4 9 9] /\
  ~ pairwiseDisjoint (GetEmptyRegions packedOnce).
Proof.
  split; [reflexivity|]. split; [reflexivity|].
  change (GetEmptyRegions packedOnce) with [mkRect 4 0 9 9; mkRect 0 4 9 9].
  intros H. inversion H as [| a l Hall _]; subst.
  inversion Hall as [| b l' Hb _]; subst.
  apply Hb. exists 4, 4. unfold inRect. cbn [left top right bottom]. lia.
Qed.

(** C1 (amended): free regions may overlap one another; what every run of
    in-range operations from a fresh bin keeps (the extension that grows a
    zero-width bin in both directions at once left aside) is that no free
    region shares a cell with a rectangle a successful [TryPackArea]
    returned, and that no two returned rectangles share a cell. *)
Theorem free_regions_avoid_placements (b : Bin) (placed : list Rect) :
  history b placed ->
  (forall r p, In r (GetEmptyRegions b) -> In p placed -> ~ overlap r p) /\
  pairwiseDisjoint placed.
Proof.
  intros Hh. destruct (history_accounted b placed Hh)
    as (_ & _ & _ & _ & Hexcl & Hdisj).
  split; [|assumption].
  intros r p Hr Hp (x & y & Hrx & Hpx).
  apply (Hexcl x y); [exists r | exists p]; auto.
Qed.

Lemma free_regions_avoid_placements_witness :
  (forall r p, In r (GetEmptyRegions packedOnce) -> In p [mkRect 0 0 3 3] ->
               ~ overlap r p) /\
  pairwiseDisjoint [mkRect 0 0 3 3].
Proof.
  apply (free_regions_avoid_placements packedOnce [mkRect 0 0 3 3]).
  exact packedOnce_history.
Defined.

(** C2 (as the claim states it, refuted): after extending a fresh bin to
    10x10 and packing a 4x4 area, the free regions have areas 60 and 60 and
    the placement 16, which add up to 136 and not to 10 x 10. *)
Lemma region_areas_double_count :
  IsValid (fst (TryPackArea tenByTen (mkArea 4 4))) = true /\
  totalArea (GetEmptyRegions packedOnce)
  + totalArea [fst (TryPackArea tenByTen (mkArea 4 4))] = 136 /\
  totalArea (GetEmptyRegions packedOnce)
  + totalArea [fst (TryPackArea tenByTen (mkArea 4 4))]
  <> width (GetDimensions packedOnce) * height (GetDimensions packedOnce).
Proof.
  split; [reflexivity|]. split; [reflexivity|]. vm_compute. discriminate.
Qed.

(** C2 (amended): for every run of in-range operations from a fresh bin
    (the extension that grows a zero-width bin in both directions at once
    left aside), the number of bin cells that lie in at least one free
    region plus the sum of the areas of the rectangles returned by
    successful [TryPackArea] calls equals width x height; cell by cell, a
    cell of the bin is free exactly when no returned rectangle holds it. *)
Theorem free_cells_plus_placed_area (b : Bin) (placed : list Rect) :
  history b placed ->
  freeCells b + totalArea placed
  = width (GetDimensions b) * height (GetDimensions b)
  /\ forall x y, inBin b x y ->
       (covered (GetEmptyRegions b) x y <-> ~ covered placed x y).
Proof.
  intros Hh. pose proof (history_accounted b placed Hh) as Hacc.
  split; [apply accounted_cell_count; assumption|].
  destruct Hacc as (_ & _ & _ & Hall & Hexcl & _).
  intros x y Hxy. split.
  - apply Hexcl.
  - intros Hn. destruct (Hall x y Hxy); [assumption | contradiction].
Qed.

Lemma free_cells_plus_placed_area_witness :
  freeCells packedOnce + totalArea [mkRect 0 0 3 3]
  = width (GetDimensions packedOnce) * height (GetDimensions packedOnce)
  /\ forall x y, inBin packedOnce x y ->
       (covered (GetEmptyRegions packedOnce) x y
        <-> ~ covered [mkRect 0 0 3 3] x y).
Proof.
  apply (free_cells_plus_placed_area packedOnce [mkRect 0 0 3 3]).
  exact packedOnce_history.
Defined.

End Runs.

(** ** The bisection of [upper_bound] *)

Section Bisection.

Lemma div2_lt_succ n : (Nat.div2 (S n) <= n)%nat.
Proof.
  pose proof (Nat.lt_div2 (S n)). lia.
Qed.

(** The loop halves [len] at each turn, so [len] turns are enough: more
    fuel does not change the position found. *)
Lemma upper_bound_loop_fuel l key fuel1 fuel2 first len :
  (len <= fuel1)%nat -> (len <= fuel2)%nat ->
  upper_bound_loop fuel1 l key first len
  = upper_bound_loop fuel2 l key first len.
Proof.
  revert fuel2 first len.
  induction fuel1 as [| fuel1 IH]; intros fuel2 first len H1 H2.
  - assert (len = 0%nat) by lia. subst. destruct fuel2; reflexivity.
  - destruct fuel2 as [| fuel2].
    + assert (len = 0%nat) by lia. subst. reflexivity.
    + destruct len as [| len]; [reflexivity|].
      cbn [upper_bound_loop].
      pose proof (div2_lt_succ len) as Hhalf.
      set (half := Nat.div2 (S len)) in *. clearbody half.
      destruct (key <? sortKey (nth (first + half) l sentinel));
        apply IH; lia.
Qed.

(** The position found lies in the range that was searched. *)
Lemma upper_bound_loop_range l key fuel first len :
  (first <= upper_bound_loop fuel l key first len <= first + len)%nat.
Proof.
  revert first len. induction fuel as [| fuel IH]; intros first len.
  - simpl. lia.
  - destruct len as [| len]; [simpl; lia|].
    cbn [upper_bound_loop].
    pose proof (div2_lt_succ len) as Hhalf.
    set (half := Nat.div2 (S len)) in *. clearbody half.
    destruct (key <? sortKey (nth (first + half) l sentinel)).
    + specialize (IH first half). lia.
    + specialize (IH (S (first + half)) (S len - half - 1)%nat). lia.
Qed.

Lemma upper_bound_range l value : (upper_bound l value <= length l)%nat.
Proof.
  unfold upper_bound.
  pose proof (upper_bound_loop_range l (sortKey value) (length l) 0 (length l)).
  lia.
Qed.


End Bisection.

(** ** Sample runs *)

(** Packing 10x5 twice fills the 10x10 bin; a third request fails and
    leaves the bin as it is. *)
Example pack_two_halves :
  let b1 := snd (TryPackArea tenByTen (mkArea 10 5)) in
  let b2 := snd (TryPackArea b1 (mkArea 10 5)) in
  fst (TryPackArea tenByTen (mkArea 10 5)) = mkRect 0 0 9 4 /\
  fst (TryPackArea b1 (mkArea 10 5)) = mkRect 0 5 9 9 /\
  GetEmptyRegions b2 = [] /\
  TryPackArea b2 (mkArea 10 5) = (sentinel, b2).
Proof. repeat split. Qed.

(** A 1x5 request in a 10x10 bin whose only free region is 5 wide and 1
    tall is placed rotated. *)
Example rotated_fit :
  TryPackArea (mkBin (mkArea 10 10) [mkRect 2 3 6 3]) (mkArea 1 5)
  = (mkRect 2 3 6 3, mkBin (mkArea 10 10) []).
Proof. reflexivity. Qed.

(** Widening a bin of height 0 adds no region; the rows added next bring
    one region that spans the bin. *)
Example extend_width_then_height :
  ExtendDimensions fresh (mkArea 5 0) = mkBin (mkArea 5 0) [] /\
  ExtendDimensions (ExtendDimensions fresh (mkArea 5 0)) (mkArea 0 5)
  = mkBin (mkArea 5 5) [mkRect 0 0 4 4].
Proof. split; reflexivity. Qed.

(** * Further properties of the operations *)

(** ** What reachable bins always satisfy *)

Section ReachableFacts.
Import U32 U32Facts.

Lemma packedOnce_reachable : reachable packedOnce.
Proof.
  exact (reach_pack tenByTen (mkArea 4 4) tenByTen_reachable
           (small_area_wf (mkArea 4 4) eq_refl)).
Qed.

(** X1: whatever in-range extensions and packing calls were made on a
    fresh bin, the dimensions are representable and every free region has
    in-range coordinates and is a valid, non-empty rectangle. *)
Theorem reachable_regions_valid (b : Bin) :
  reachable b ->
  wf_area (GetDimensions b) /\
  Forall (fun r => wf_rect r /\ IsValid r = true) (GetEmptyRegions b).
Proof.
  intros Hb. destruct (reachable_good b Hb) as [Hd Hall].
  split; [assumption|]. revert Hall. apply Forall_impl. intros r Hr.
  split; [apply goodRect_wf, Hr | apply (within_valid _ _ r Hr)].
Qed.

Lemma reachable_regions_valid_witness :
  wf_area (GetDimensions packedOnce) /\
  Forall (fun r => wf_rect r /\ IsValid r = true) (GetEmptyRegions packedOnce).
Proof. apply (reachable_regions_valid packedOnce). exact packedOnce_reachable. Defined.

(** X2: a successful call on a reachable bin takes exactly the cells of
    the returned rectangle out of the free space: a cell is free afterwards
    if and only if it was free before and lies outside the result. *)
Theorem TryPackArea_removes_result_cells (b : Bin) (a : Area) (x y : Z) :
  reachable b -> wf_area a ->
  IsValid (fst (TryPackArea b a)) = true ->
  covered (GetEmptyRegions (snd (TryPackArea b a))) x y
  <-> covered (GetEmptyRegions b) x y /\ ~ inRect (fst (TryPackArea b a)) x y.
Proof.
  intros Hb Ha Hv. destruct (reachable_good b Hb) as [_ Hall].
  destruct (TryPackArea_cases b a) as [Hs | (Hw & Hh & _ & _ & Hc & _ & Hsnd)].
  - rewrite Hs in Hv. discriminate.
  - unfold GetEmptyRegions. rewrite Hsnd. cbn [emptyRegions].
    apply applyClip_covered; [apply Forall_good_wf, Hall|].
    apply goodRect_wf, (candidate_good (emptyRegions b) a); assumption.
Qed.

Lemma TryPackArea_removes_result_cells_witness :
  covered (GetEmptyRegions (snd (TryPackArea tenByTen (mkArea 4 4)))) 2 7
  <-> covered (GetEmptyRegions tenByTen) 2 7
      /\ ~ inRect (fst (TryPackArea tenByTen (mkArea 4 4))) 2 7.
Proof.
  apply (TryPackArea_removes_result_cells tenByTen (mkArea 4 4) 2 7).
  - exact tenByTen_reachable.
  - apply small_area_wf. reflexivity.
  - reflexivity.
Defined.

End ReachableFacts.

(** ** What runs without the zero-width double extension satisfy *)

Section HistoryFacts.
Import U32 U32Facts.

(** X3: along every run of in-range operations that never adds columns
    and rows in one call to a bin of width 0, each free region lies inside
    the bin, and a bin with a zero dimension has no free region at all. *)
Theorem history_regions_inside_bin (b : Bin) (placed : list Rect) :
  history b placed ->
  Forall (fun r => 0 <= left r /\ left r <= right r /\
                   right r < width (GetDimensions b) /\
                   0 <= top r /\ top r <= bottom r /\
                   bottom r < height (GetDimensions b))
         (GetEmptyRegions b)
  /\ (width (GetDimensions b) = 0 \/ height (GetDimensions b) = 0 ->
      GetEmptyRegions b = []).
Proof.
  intros Hh. destruct (history_accounted b placed Hh) as (_ & Hfree & _).
  unfold GetEmptyRegions, GetDimensions. split.
  - revert Hfree. apply Forall_impl. unfold within. intros r Hr. lia.
  - intros Hz. destruct (emptyRegions b) as [| r l]; [reflexivity|].
    inversion Hfree as [| r' l' Hr _]; subst. unfold within in Hr. lia.
Qed.

Lemma history_regions_inside_bin_witness :
  Forall (fun r => 0 <= left r /\ left r <= right r /\
                   right r < width (GetDimensions packedOnce) /\
                   0 <= top r /\ top r <= bottom r /\
                   bottom r < height (GetDimensions packedOnce))
         (GetEmptyRegions packedOnce)
  /\ (width (GetDimensions packedOnce) = 0
      \/ height (GetDimensions packedOnce) = 0 ->
      GetEmptyRegions packedOnce = []).
Proof.
  apply (history_regions_inside_bin packedOnce [mkRect 0 0 3 3]).
  exact packedOnce_history.
Defined.

(** X4: as long as no packing call has succeeded, the free regions of such
    a run cover exactly the cells of the bin. *)
Theorem unpacked_bin_is_all_free (b : Bin) (x y : Z) :
  history b [] ->
  covered (GetEmptyRegions b) x y <-> inBin b x y.
Proof.
  intros Hh.
  destruct (history_accounted b [] Hh) as (_ & Hfree & _ & Hall & _).
  unfold GetEmptyRegions. split.
  - intros (r & Hr & Hc).
    pose proof (proj1 (Forall_forall _ _) Hfree r Hr) as Hw.
    unfold within, inRect, inBin in *. lia.
  - intros Hin. destruct (Hall x y Hin) as [Hf | Hp]; [assumption|].
    exfalso. exact (covered_nil x y Hp).
Qed.

Lemma unpacked_bin_is_all_free_witness :
  covered (GetEmptyRegions tenByTen) 9 9 <-> inBin tenByTen 9 9.
Proof. apply (unpacked_bin_is_all_free tenByTen 9 9). exact tenByTen_history. Defined.

(** X5: in such a run every rectangle a successful call returns lies
    inside the bin. *)
Theorem TryPackArea_result_inside_bin (b : Bin) (placed : list Rect) (a : Area) :
  history b placed -> wf_area a ->
  IsValid (fst (TryPackArea b a)) = true ->
  right (fst (TryPackArea b a)) < width (GetDimensions b) /\
  bottom (fst (TryPackArea b a)) < height (GetDimensions b).
Proof.
  intros Hh Ha Hv.
  pose proof (TryPackArea_accounted b placed a (history_accounted b placed Hh) Ha)
    as (_ & _ & Hplaced & _).
  rewrite Hv, TryPackArea_dimensions in Hplaced.
  inversion Hplaced as [| c l Hc _]; subst.
  unfold within in Hc. unfold GetDimensions. lia.
Qed.

Lemma TryPackArea_result_inside_bin_witness :
  right (fst (TryPackArea packedOnce (mkArea 6 3))) < width (GetDimensions packedOnce) /\
  bottom (fst (TryPackArea packedOnce (mkArea 6 3))) < height (GetDimensions packedOnce).
Proof.
  apply (TryPackArea_result_inside_bin packedOnce [mkRect 0 0 3 3] (mkArea 6 3)).
  - exact packedOnce_history.
  - apply small_area_wf. reflexivity.
  - reflexivity.
Defined.

(** X6: in such a run a successful call lowers the number of free cells of
    the bin by exactly the requested width times height, and a failing call
    leaves it as it was. *)
Theorem TryPackArea_free_cell_count (b : Bin) (placed : list Rect) (a : Area) :
  history b placed -> wf_area a ->
  freeCells (snd (TryPackArea b a))
  = if IsValid (fst (TryPackArea b a))
    then freeCells b - width a * height a
    else freeCells b.
Proof.
  intros Hh Ha.
  pose proof (history_accounted b placed Hh) as Hacc.
  pose proof (accounted_cell_count b placed Hacc) as Hbefore.
  pose proof (accounted_cell_count _ _ (TryPackArea_accounted b placed a Hacc Ha))
    as Hafter.
  rewrite TryPackArea_dimensions in Hafter.
  destruct (IsValid (fst (TryPackArea b a))) eqn:Hv; [|lia].
  change (totalArea (fst (TryPackArea b a) :: placed))
    with (rectArea (fst (TryPackArea b a)) + totalArea placed) in Hafter.
  destruct Hacc as (Hwf & Hfree & _).
  assert (Hgood : Forall goodRect (emptyRegions b)).
  { unfold wf_area, in_range in Hwf. revert Hfree. apply Forall_impl.
    intros r. apply within_mono; lia. }
  destruct (TryPackArea_cases b a) as [Hs | (Hw & Hh' & _ & _ & Hc & _ & _)].
  - rewrite Hs in Hv. discriminate.
  - destruct (candidate_geometry (emptyRegions b) a _ Hgood Ha Hw Hh' Hc)
      as (_ & Hsize & _).
    assert (rectArea (fst (TryPackArea b a)) = width a * height a).
    { unfold rectArea. destruct Hsize as [[-> ->] | [-> ->]]; lia. }
    lia.
Qed.

Lemma TryPackArea_free_cell_count_witness :
  freeCells (snd (TryPackArea packedOnce (mkArea 6 3)))
  = if IsValid (fst (TryPackArea packedOnce (mkArea 6 3)))
    then freeCells packedOnce - width (mkArea 6 3) * height (mkArea 6 3)
    else freeCells packedOnce.
Proof.
  apply (TryPackArea_free_cell_count packedOnce [mkRect 0 0 3 3] (mkArea 6 3)).
  - exact packedOnce_history.
  - apply small_area_wf. reflexivity.
Defined.

End HistoryFacts.

(** ** More on the scorer *)

Section ScorerFacts.
Import U32 U32Facts.

Lemma intersection_of_covered region clip :
  contains clip region -> intersection region clip = region.
Proof.
  unfold contains, intersection. intros Hc. destruct region as [l t r b].
  cbn [left top right bottom] in *. f_equal; lia.
Qed.

Lemma GetClipScore_swallowed region clip :
  contains clip region -> GetClipScore region clip = 0.
Proof.
  intros Hc. unfold GetClipScore.
  destruct ((left clip >? right region) || (right clip <? left region)
            || (top clip >? bottom region) || (bottom clip <? top region));
    [reflexivity|].
  rewrite (intersection_of_covered region clip Hc).
  unfold sub. rewrite Z.sub_diag.
  unfold mul, wrap. rewrite Zmod_0_l, Z.mul_0_r. reflexivity.
Qed.

Lemma equal_area_inside region clip :
  IsValid region = true -> IsValid clip = true ->
  clipTouches region clip = true ->
  rectArea (intersection region clip) = rectArea region ->
  contains clip region.
Proof.
  unfold IsValid, clipTouches, rectArea, rectWidth, rectHeight, intersection,
    contains. cbn [left top right bottom]. intros Hr Hc Ht Heq. zprop.
  set (wi := Z.min (right region) (right clip)
             - Z.max (left region) (left clip) + 1) in *.
  set (hi := Z.min (bottom region) (bottom clip)
             - Z.max (top region) (top clip) + 1) in *.
  set (wr := right region - left region + 1) in *.
  set (hr := bottom region - top region + 1) in *.
  assert (Hwi : 1 <= wi <= wr) by (unfold wi, wr; lia).
  assert (Hhi : 1 <= hi <= hr) by (unfold hi, hr; lia).
  assert (Hw : wi = wr).
  { destruct (Z.eq_dec wi wr) as [|Hne]; [assumption|]. exfalso.
    assert (wi * hi <= (wr - 1) * hr) by (apply Z.mul_le_mono_nonneg; lia).
    nia. }
  assert (Hh : hi = hr).
  { destruct (Z.eq_dec hi hr) as [|Hne]; [assumption|]. exfalso.
    assert (wi * hi <= wr * (hr - 1)) by (apply Z.mul_le_mono_nonneg; lia).
    nia. }
  unfold wi, wr, hi, hr in *. lia.
Qed.

Lemma zero_multiplier_equal region clip :
  IsValid region = true -> clipMultiplier region clip = 0 ->
  contains clip region.
Proof.
  unfold IsValid. intros Hr Hm. zprop.
  unfold clipMultiplier in Hm.
  rewrite (rightEdgeTerm_false region clip) in Hm by lia.
  rewrite (bottomEdgeTerm_false region clip) in Hm by lia.
  change (b2z false) with 0 in Hm.
  pose proof (b2z_range (leftEdgeTerm region clip)).
  pose proof (b2z_range (topEdgeTerm region clip)).
  assert (Hfh : fullHeightTerm region clip = true).
  { destruct (fullHeightTerm region clip); [reflexivity|].
    pose proof (b2z_range (fullWidthTerm region clip)).
    change (b2z false) with 0 in Hm. lia. }
  assert (Hfw : fullWidthTerm region clip = true).
  { destruct (fullWidthTerm region clip); [reflexivity|].
    pose proof (b2z_range (fullHeightTerm region clip)).
    change (b2z false) with 0 in Hm. lia. }
  unfold fullHeightTerm, fullWidthTerm in *. zprop. unfold contains. lia.
Qed.

(** X7: a clip that contains the whole region always scores 0 against it,
    whatever the coordinates; and when region and clip are valid and four
    times the region's area fits an [int], the score is 0 only if the clip
    misses the region or contains all of it. *)
Theorem GetClipScore_zero_iff (region clip : Rect) :
  (contains clip region -> GetClipScore region clip = 0) /\
  (IsValid region = true -> IsValid clip = true ->
   4 * rectArea region <= INT_MAX ->
   (GetClipScore region clip = 0
    <-> clipTouches region clip = false \/ contains clip region)).
Proof.
  split; [apply GetClipScore_swallowed|].
  intros Hr Hc Hb. split.
  - intros Hz. destruct (clipTouches region clip) eqn:Ht; [right | left; reflexivity].
    rewrite (GetClipScore_exact region clip Hr Hc Hb) in Hz.
    unfold specScore in Hz. rewrite Ht, specMultiplier_eq in Hz.
    apply Z.mul_eq_0 in Hz. destruct Hz as [Hm | Ha].
    + apply zero_multiplier_equal; assumption.
    + apply equal_area_inside; try assumption. lia.
  - intros [Ht | Hin].
    + apply GetClipScore_untouched. assumption.
    + apply GetClipScore_swallowed. assumption.
Qed.

Lemma GetClipScore_zero_iff_witness :
  GetClipScore (mkRect 2 2 5 5) (mkRect 0 0 9 9) = 0 /\
  (GetClipScore (mkRect 0 0 9 9) (mkRect 0 0 3 3) = 0
   <-> clipTouches (mkRect 0 0 9 9) (mkRect 0 0 3 3) = false
       \/ contains (mkRect 0 0 3 3) (mkRect 0 0 9 9)).
Proof.
  split.
  - apply (proj1 (GetClipScore_zero_iff (mkRect 2 2 5 5) (mkRect 0 0 9 9))).
    unfold contains. cbn [left top right bottom]. lia.
  - apply (proj2 (GetClipScore_zero_iff (mkRect 0 0 9 9) (mkRect 0 0 3 3))).
    + reflexivity.
    + reflexivity.
    + vm_compute. discriminate.
Defined.

(** X8: for valid, in-range free regions whose areas sum to less than a
    quarter of [INT_MAX] and a valid clip, every single score lies between
    0 and four times the area of its region, and the accumulated score
    between 0 and four times the total area, so nothing wraps around. *)
Theorem totalScore_range (regions : list Rect) (clip : Rect) :
  Forall goodRect regions -> IsValid clip = true ->
  4 * totalArea regions < INT_MAX ->
  0 <= totalScore regions clip <= 4 * totalArea regions /\
  forall r, In r regions -> 0 <= GetClipScore r clip <= 4 * rectArea r.
Proof.
  intros Hall Hc Hb. split; [apply totalScore_bounds; assumption|].
  intros r Hr.
  pose proof (proj1 (Forall_forall _ _) Hall r Hr) as Hg.
  pose proof (within_valid _ _ r Hg) as Hv.
  assert (Hle : rectArea r <= totalArea regions).
  { clear Hb. induction Hall as [| r0 l Hr0 Hl IH]; [destruct Hr|].
    change (totalArea (r0 :: l)) with (rectArea r0 + totalArea l).
    pose proof (rectArea_pos r0 Hr0). pose proof (totalArea_nonneg l Hl).
    destruct Hr as [-> | Hr]; [lia|]. specialize (IH Hr). lia. }
  rewrite GetClipScore_exact by (try assumption; lia).
  apply specScore_bounds; assumption.
Qed.

Lemma totalScore_range_witness :
  0 <= totalScore (GetEmptyRegions packedOnce) (mkRect 4 0 9 2)
    <= 4 * totalArea (GetEmptyRegions packedOnce) /\
  forall r, In r (GetEmptyRegions packedOnce) ->
            0 <= GetClipScore r (mkRect 4 0 9 2) <= 4 * rectArea r.
Proof.
  apply (totalScore_range (GetEmptyRegions packedOnce) (mkRect 4 0 9 2)).
  - apply (reachable_good packedOnce packedOnce_reachable).
  - reflexivity.
  - reflexivity.
Defined.

End ScorerFacts.

(** ** The search picks a lowest score *)

Section SearchMinimal.
Import U32 U32Facts.

Variable regions : list Rect.

Lemma tryCorners_min clips st :
  minScore (fst (tryCorners regions clips st)) <= minScore st /\
  (snd (tryCorners regions clips st) = true ->
   minScore (fst (tryCorners regions clips st)) = 0) /\
  (snd (tryCorners regions clips st) = false ->
   forall c, In c clips ->
             minScore (fst (tryCorners regions clips st)) <= totalScore regions c) /\
  (tracksScore regions st -> tracksScore regions (fst (tryCorners regions clips st))).
Proof.
  revert st. induction clips as [| c clips IH]; intros st.
  - cbn [tryCorners fst snd]. repeat split; try lia; try discriminate; auto.
    intros _ c [].
  - cbn [tryCorners].
    destruct (Z.ltb_spec (totalScore regions c) (minScore st)) as [Hlt | Hge].
    + destruct (Z.eqb_spec (totalScore regions c) 0) as [Hz | Hnz].
      * cbn [fst snd minScore bestRect]. repeat split; try lia; try discriminate.
        intros _. right. reflexivity.
      * destruct (IH (mkBest (totalScore regions c) c)) as (H1 & H2 & H3 & H4).
        cbn [minScore] in H1. repeat split.
        -- lia.
        -- assumption.
        -- intros Hs c' [<- | Hc']; [assumption | apply H3; assumption].
        -- intros _. apply H4. right. reflexivity.
    + destruct (IH st) as (H1 & H2 & H3 & H4). repeat split.
      * assumption.
      * assumption.
      * intros Hs c' [<- | Hc']; [lia | apply H3; assumption].
      * assumption.
Qed.

Lemma scanRegions_min rs a st :
  minScore (scanRegions regions rs a st) <= minScore st /\
  (minScore (scanRegions regions rs a st) = 0
   \/ forall r, In r rs -> fits r a = true ->
      forall c, In c (corners r a) ->
                minScore (scanRegions regions rs a st) <= totalScore regions c) /\
  (tracksScore regions st -> tracksScore regions (scanRegions regions rs a st)).
Proof.
  revert st. induction rs as [| r rs IH]; intros st; cbn [scanRegions].
  - repeat split; try lia; auto. right. intros r [].
  - destruct (fits r a) eqn:Hfit.
    + pose proof (tryCorners_min (corners r a) st) as (H1 & H2 & H3 & H4).
      destruct (tryCorners regions (corners r a) st) as [st1 stop].
      cbn [fst snd] in *. destruct stop.
      * repeat split; auto.
      * destruct (IH st1) as (G1 & G2 & G3). repeat split.
        -- lia.
        -- destruct G2 as [G2 | G2]; [left; assumption | right].
           intros r' [<- | Hr'] Hf c Hc.
           ++ specialize (H3 eq_refl c Hc). lia.
           ++ apply (G2 r' Hr' Hf c Hc).
        -- auto.
    + destruct (IH st) as (G1 & G2 & G3). repeat split; auto.
      destruct G2 as [G2 | G2]; [left; assumption | right].
      intros r' [<- | Hr'] Hf c Hc; [congruence|].
      apply (G2 r' Hr' Hf c Hc).
Qed.

Lemma search_min area :
  (forall c, candidate regions area c -> 0 <= totalScore regions c) ->
  (forall c, candidate regions area c ->
             minScore (search regions area) <= totalScore regions c)
  /\ tracksScore regions (search regions area).
Proof.
  intros Hnn. unfold search.
  destruct (scanRegions_min regions area noBest) as (A1 & A2 & A3).
  assert (At : tracksScore regions (scanRegions regions regions area noBest))
    by (apply A3; left; reflexivity).
  destruct (Z.eqb_spec (minScore (scanRegions regions regions area noBest)) 0)
    as [Hz | Hnz].
  - split; [|assumption]. intros c Hc. rewrite Hz. apply Hnn, Hc.
  - destruct A2 as [A2 | A2]; [contradiction|].
    destruct (scanRegions_min regions (rotate area)
                (scanRegions regions regions area noBest)) as (B1 & B2 & B3).
    split; [|apply B3; assumption].
    intros c Hc. destruct B2 as [B2 | B2]; [rewrite B2; apply Hnn, Hc|].
    destruct Hc as (r & a' & Hr & [-> | ->] & Hf & Hin).
    + specialize (A2 r Hr Hf c Hin). lia.
    + apply (B2 r Hr Hf c Hin).
Qed.

End SearchMinimal.

Section BestFit.
Import U32 U32Facts.

(** X9: on a reachable bin whose free area keeps the scores inside an
    [int], the rectangle a successful call returns has the lowest
    accumulated clip score of all candidate placements: no corner of any
    fitting free region, in either orientation, scores less. *)
Theorem TryPackArea_lowest_score (b : Bin) (a : Area) (c : Rect) :
  reachable b -> wf_area a ->
  4 * totalArea (GetEmptyRegions b) < INT_MAX ->
  IsValid (fst (TryPackArea b a)) = true ->
  candidate (GetEmptyRegions b) a c ->
  totalScore (GetEmptyRegions b) (fst (TryPackArea b a))
  <= totalScore (GetEmptyRegions b) c.
Proof.
  unfold GetEmptyRegions. intros Hb Ha Hbound Hv Hc.
  destruct (reachable_good b Hb) as [_ Hall].
  destruct (TryPackArea_cases b a) as [Hs | (Hw & Hh & _ & _ & _ & _ & _)];
    [rewrite Hs in Hv; discriminate|].
  assert (Hnn : forall c', candidate (emptyRegions b) a c' ->
                           0 <= totalScore (emptyRegions b) c').
  { intros c' Hc'.
    destruct (candidate_geometry _ a c' Hall Ha Hw Hh Hc') as (Hcv & _).
    apply (totalScore_bounds (emptyRegions b) c' Hall Hcv Hbound). }
  destruct (search_min (emptyRegions b) a Hnn) as [Hmin Htr].
  unfold TryPackArea in *.
  destruct ((width a >? 0) && (height a >? 0)
            && (width a <=? width (dimensions b))
            && (height a <=? height (dimensions b)));
    [|discriminate].
  destruct (IsValid (bestRect (search (emptyRegions b) a))) eqn:Hbest;
    [|discriminate].
  cbn [fst]. destruct Htr as [Hno | Htr].
  - rewrite Hno in Hbest. discriminate.
  - rewrite <- Htr. apply Hmin, Hc.
Qed.

Lemma TryPackArea_lowest_score_witness :
  candidate (GetEmptyRegions tenByTen) (mkArea 4 6)
            (clipSE (mkRect 0 0 9 9) (mkArea 6 4)) /\
  totalScore (GetEmptyRegions tenByTen) (fst (TryPackArea tenByTen (mkArea 4 6)))
  <= totalScore (GetEmptyRegions tenByTen) (clipSE (mkRect 0 0 9 9) (mkArea 6 4)).
Proof.
  assert (Hc : candidate (GetEmptyRegions tenByTen) (mkArea 4 6)
                         (clipSE (mkRect 0 0 9 9) (mkArea 6 4))).
  { exists (mkRect 0 0 9 9), (mkArea 6 4). repeat split.
    - left. reflexivity.
    - right. reflexivity.
    - right. right. right. left. reflexivity. }
  split; [exact Hc|].
  apply (TryPackArea_lowest_score tenByTen (mkArea 4 6)).
  - exact tenByTen_reachable.
  - apply small_area_wf. reflexivity.
  - reflexivity.
  - reflexivity.
  - exact Hc.
Defined.

End BestFit.

(** ** More on [ExtendDimensions] *)

Section ExtensionFacts.
Import U32 U32Facts.

Lemma contains_refl r : contains r r.
Proof. unfold contains. lia. Qed.

Lemma contains_trans r1 r2 r3 : contains r1 r2 -> contains r2 r3 -> contains r1 r3.
Proof. unfold contains. lia. Qed.

Lemma update_first_length p f l l' :
  update_first p f l = Some l' -> length l' = length l.
Proof.
  revert l'. induction l as [| r l IH]; intros l' Hu; simpl in Hu.
  - discriminate.
  - destruct (p r).
    + inversion Hu; subst. reflexivity.
    + destruct (update_first p f l) as [l0 |]; [|discriminate].
      inversion Hu; subst. simpl. f_equal. apply IH. reflexivity.
Qed.

Lemma grownInto_trans n1 n2 l1 l2 l3 :
  grownInto n1 l1 l2 -> grownInto n2 l2 l3 -> grownInto (n1 + n2) l1 l3.
Proof.
  intros [H1 L1] [H2 L2]. split; [|lia].
  intros r Hr. destruct (H1 r Hr) as (r' & Hr' & Hc').
  destruct (H2 r' Hr') as (r'' & Hr'' & Hc'').
  exists r''. split; [assumption | apply contains_trans with r'; assumption].
Qed.

Lemma grownInto_refl l : grownInto 0 l l.
Proof.
  split; [|lia]. intros r Hr. exists r. split; [assumption | apply contains_refl].
Qed.

Lemma grownInto_weaken n m l l' :
  (n <= m)%nat -> grownInto n l l' -> grownInto m l l'.
Proof. intros Hle [H1 L1]. split; [assumption | lia]. Qed.

Lemma pushRight_contains ew r :
  0 <= ew -> right r + ew < modulus -> goodRect r ->
  contains (pushRight ew r) r.
Proof.
  unfold goodRect, within, contains, pushRight. cbn [left top right bottom].
  intros He Hb Hr. rewrite add_exact by (unfold in_range; lia). lia.
Qed.

Lemma pushBottom_contains eh r :
  0 <= eh -> bottom r + eh < modulus -> goodRect r ->
  contains (pushBottom eh r) r.
Proof.
  unfold goodRect, within, contains, pushBottom. cbn [left top right bottom].
  intros He Hb Hr. rewrite add_exact by (unfold in_range; lia). lia.
Qed.

Lemma growRight_grown dims e rightEdge bottomEdge regions :
  Forall goodRect regions -> 0 <= width e ->
  (forall r, In r regions -> right r = rightEdge -> right r + width e < modulus) ->
  grownInto 1 regions (growRight dims e rightEdge bottomEdge regions).
Proof.
  intros Hall He Hroom. unfold growRight.
  assert (Hin : forall r, In r regions -> goodRect r)
    by (apply Forall_forall; assumption).
  destruct (update_first _ _ regions) as [l' |] eqn:Hu.
  - split; [|rewrite (update_first_length _ _ _ _ Hu); lia].
    destruct (update_first_Some _ _ _ _ Hu) as (m & Hm & Hp & Hfm & _ & Hfwd).
    zprop. intros r Hr. destruct (Hfwd r Hr) as [-> | Hr'].
    + exists (pushRight (width e) m). split; [assumption|].
      apply pushRight_contains; auto. apply Hroom; tauto.
    + exists r. split; [assumption | apply contains_refl].
  - split; [|rewrite length_app, length_map; simpl; lia].
    intros r Hr.
    exists (if right r =? rightEdge then pushRight (width e) r else r).
    split; [apply in_or_app; left; apply in_map_iff; exists r; auto|].
    destruct (Z.eqb_spec (right r) rightEdge); [|apply contains_refl].
    apply pushRight_contains; auto.
Qed.

Lemma growDown_grown dims e rightEdge bottomEdge regions :
  Forall goodRect regions -> 0 <= height e ->
  (forall r, In r regions -> bottom r = bottomEdge -> bottom r + height e < modulus) ->
  grownInto 1 regions (growDown dims e rightEdge bottomEdge regions).
Proof.
  intros Hall He Hroom. unfold growDown.
  assert (Hin : forall r, In r regions -> goodRect r)
    by (apply Forall_forall; assumption).
  destruct (update_first _ _ regions) as [l' |] eqn:Hu.
  - split; [|rewrite (update_first_length _ _ _ _ Hu); lia].
    destruct (update_first_Some _ _ _ _ Hu) as (m & Hm & Hp & Hfm & _ & Hfwd).
    zprop. intros r Hr. destruct (Hfwd r Hr) as [-> | Hr'].
    + exists (pushBottom (height e) m). split; [assumption|].
      apply pushBottom_contains; auto. apply Hroom; tauto.
    + exists r. split; [assumption | apply contains_refl].
  - split; [|rewrite length_app, length_map; simpl; lia].
    intros r Hr.
    exists (if bottom r =? bottomEdge then pushBottom (height e) r else r).
    split; [apply in_or_app; left; apply in_map_iff; exists r; auto|].
    destruct (Z.eqb_spec (bottom r) bottomEdge); [|apply contains_refl].
    apply pushBottom_contains; auto.
Qed.

Lemma ExtendDimensions_grown b e :
  wf_area (dimensions b) -> extensionInRange b e ->
  Forall goodRect (emptyRegions b) ->
  grownInto 2 (emptyRegions b) (emptyRegions (ExtendDimensions b e)).
Proof.
  unfold extensionInRange, wf_area, in_range.
  intros [Hw Hh] ([Hew Heh] & HW & HH) Hall.
  unfold ExtendDimensions. cbn [emptyRegions dimensions width height].
  set (W := width (dimensions b)) in *. set (H := height (dimensions b)) in *.
  set (rightEdge := if W >? 0 then sub W 1 else 0).
  set (bottomEdge := if H >? 0 then sub H 1 else 0).
  assert (HrE : 0 <= rightEdge <= W).
  { unfold rightEdge. rewrite Z.gtb_ltb. destruct (Z.ltb_spec 0 W).
    - rewrite sub_exact by (unfold in_range; lia). lia.
    - lia. }
  assert (HbE : 0 <= bottomEdge <= H).
  { unfold bottomEdge. rewrite Z.gtb_ltb. destruct (Z.ltb_spec 0 H).
    - rewrite sub_exact by (unfold in_range; lia). lia.
    - lia. }
  clearbody rightEdge bottomEdge.
  set (regions1 := if (width e >? 0) && (H >? 0)
                   then growRight (dimensions b) e rightEdge bottomEdge (emptyRegions b)
                   else emptyRegions b).
  assert (G1 : grownInto 1 (emptyRegions b) regions1).
  { unfold regions1. destruct ((width e >? 0) && (H >? 0)).
    - apply growRight_grown; try assumption; lia.
    - apply grownInto_weaken with 0%nat; [lia | apply grownInto_refl]. }
  assert (H1 : Forall goodRect regions1).
  { unfold regions1. destruct ((width e >? 0) && (H >? 0)) eqn:Hc; [|assumption].
    zprop. apply growRight_within; try assumption; try lia.
    fold W. unfold within. cbn [left top right bottom].
    rewrite sub_add_exact by (unfold in_range; lia).
    unfold modulus in *. lia. }
  clearbody regions1.
  apply (grownInto_trans 1 1 _ regions1); [assumption|].
  destruct ((height e >? 0) && (add W (width e) >? 0)).
  - apply growDown_grown; try assumption; lia.
  - apply grownInto_weaken with 0%nat; [lia | apply grownInto_refl].
Qed.

(** X10: an in-range extension of a reachable bin never removes or shrinks
    a free region: every region it had is contained in a region it has
    afterwards, and at most two regions are added. *)
Theorem ExtendDimensions_never_shrinks (b : Bin) (e : Area) :
  reachable b -> extensionInRange b e ->
  (forall r, In r (GetEmptyRegions b) ->
     exists r', In r' (GetEmptyRegions (ExtendDimensions b e)) /\ contains r' r)
  /\ (length (GetEmptyRegions b)
      <= length (GetEmptyRegions (ExtendDimensions b e))
      <= length (GetEmptyRegions b) + 2)%nat.
Proof.
  intros Hb He. destruct (reachable_good b Hb) as [Hd Hall].
  exact (ExtendDimensions_grown b e Hd He Hall).
Qed.

Lemma ExtendDimensions_never_shrinks_witness :
  (forall r, In r (GetEmptyRegions packedOnce) ->
     exists r', In r' (GetEmptyRegions (ExtendDimensions packedOnce (mkArea 5 3)))
                /\ contains r' r)
  /\ (length (GetEmptyRegions packedOnce)
      <= length (GetEmptyRegions (ExtendDimensions packedOnce (mkArea 5 3)))
      <= length (GetEmptyRegions packedOnce) + 2)%nat.
Proof.
  apply (ExtendDimensions_never_shrinks packedOnce (mkArea 5 3)).
  - exact packedOnce_reachable.
  - apply small_extension_in_range. reflexivity.
Defined.

(** X11: along a run without the zero-width double extension, an in-range
    extension that is not one either adds to the free space exactly the
    cells the bin gains: a cell is free afterwards if and only if it was
    free before or lies in the new bin and outside the old one. *)
Theorem ExtendDimensions_frees_new_cells
    (b : Bin) (placed : list Rect) (e : Area) (x y : Z) :
  history b placed -> extensionInRange b e -> ~ growsFromZeroWidth b e ->
  covered (GetEmptyRegions (ExtendDimensions b e)) x y
  <-> covered (GetEmptyRegions b) x y
      \/ (inBin (ExtendDimensions b e) x y /\ ~ inBin b x y).
Proof.
  intros Hh He Hs.
  destruct (history_accounted b placed Hh) as (Hwf & Hfree & _).
  destruct (ExtendDimensions_frame b e Hwf He Hs Hfree) as [_ Hcov].
  unfold GetEmptyRegions, inBin.
  rewrite (ExtendDimensions_dimensions b e Hwf He). cbn [width height].
  apply Hcov.
Qed.

Lemma ExtendDimensions_frees_new_cells_witness :
  covered (GetEmptyRegions (ExtendDimensions packedOnce (mkArea 5 3))) 12 11
  <-> covered (GetEmptyRegions packedOnce) 12 11
      \/ (inBin (ExtendDimensions packedOnce (mkArea 5 3)) 12 11
          /\ ~ inBin packedOnce 12 11).
Proof.
  apply (ExtendDimensions_frees_new_cells packedOnce [mkRect 0 0 3 3] (mkArea 5 3)).
  - exact packedOnce_history.
  - apply small_extension_in_range. reflexivity.
  - unfold growsFromZeroWidth. vm_compute. intros [H _]. discriminate H.
Defined.

End ExtensionFacts.

(** ** The first extension of a fresh bin *)

Section FirstExtension.
Import U32 U32Facts.

Lemma gtb_pos n : 0 < n -> (n >? 0) = true.
Proof. intros H. rewrite Z.gtb_ltb. apply Z.ltb_lt. exact H. Qed.

Lemma add_zero_l n : in_range n -> add 0 n = n.
Proof. intros H. unfold add. rewrite Z.add_0_l. apply wrap_small, H. Qed.

Lemma add_zero_r n : in_range n -> add n 0 = n.
Proof. intros H. unfold add. rewrite Z.add_0_r. apply wrap_small, H. Qed.

Lemma sub_one n : 0 < n < modulus -> sub n 1 = n - 1.
Proof. intros H. apply sub_exact. unfold in_range. lia. Qed.

(** Symbolic evaluation of an extension whose comparisons are decided by
    the hypotheses. *)
Ltac eval_extension :=
  unfold ExtendDimensions, fresh;
  repeat (cbn [dimensions emptyRegions width height andb update_first map app];
          first [ progress change (0 >? 0) with false
                | rewrite andb_false_r
                | rewrite gtb_pos by lia
                | rewrite add_zero_l by (unfold in_range, modulus in *; lia)
                | rewrite add_zero_r by (unfold in_range, modulus in *; lia)
                | rewrite sub_one by lia
                | progress unfold growDown, growRight ]).

(** X12: growing a fresh bin one dimension at a time, in either order,
    gives the dimensions asked for and one free region that is exactly the
    bin, {0, 0, width - 1, height - 1}. *)
Theorem fresh_extension_by_steps (ew eh : Z) :
  0 < ew < modulus -> 0 < eh < modulus ->
  ExtendDimensions (ExtendDimensions fresh (mkArea ew 0)) (mkArea 0 eh)
  = mkBin (mkArea ew eh) [mkRect 0 0 (ew - 1) (eh - 1)]
  /\ ExtendDimensions (ExtendDimensions fresh (mkArea 0 eh)) (mkArea ew 0)
     = mkBin (mkArea ew eh) [mkRect 0 0 (ew - 1) (eh - 1)].
Proof.
  intros Hw Hh. split; eval_extension; reflexivity.
Qed.

Lemma fresh_extension_by_steps_witness :
  ExtendDimensions (ExtendDimensions fresh (mkArea 7 0)) (mkArea 0 3)
  = mkBin (mkArea 7 3) [mkRect 0 0 (7 - 1) (3 - 1)]
  /\ ExtendDimensions (ExtendDimensions fresh (mkArea 0 3)) (mkArea 7 0)
     = mkBin (mkArea 7 3) [mkRect 0 0 (7 - 1) (3 - 1)].
Proof. apply (fresh_extension_by_steps 7 3); unfold modulus; lia. Defined.

(** X13: growing a fresh bin in both dimensions with one call gives the
    dimensions asked for and one free region {0, 0, width, height - 1}:
    its right edge is the width itself, one column beyond the last column
    of the bin. *)
Theorem fresh_extension_at_once (ew eh : Z) :
  0 < ew < modulus -> 0 < eh < modulus ->
  ExtendDimensions fresh (mkArea ew eh)
  = mkBin (mkArea ew eh) [mkRect 0 0 ew (eh - 1)].
Proof.
  intros Hw Hh. eval_extension. reflexivity.
Qed.

Lemma fresh_extension_at_once_witness :
  ExtendDimensions fresh (mkArea 7 3) = mkBin (mkArea 7 3) [mkRect 0 0 7 (3 - 1)].
Proof. apply (fresh_extension_at_once 7 3); unfold modulus; lia. Defined.

End FirstExtension.

(** ** Merging on insertion *)

Section Merging.
Import U32 U32Facts.



End Merging.

(** ** Larger requests *)

Section LargerRequests.
Import U32 U32Facts.

Lemma fits_smaller r a a' :
  goodRect r -> wf_area a -> wf_area a' ->
  0 < width a -> 0 < height a ->
  width a <= width a' -> height a <= height a' ->
  fits r a = false -> fits r a' = false.
Proof.
  intros Hr Ha Ha' Hw Hh Hww Hhh Hf.
  destruct (fits r a') eqn:Hf'; [|reflexivity].
  apply (fits_accommodates r a' Hr Ha') in Hf'; try lia.
  assert (Hacc : accommodates r a) by (unfold accommodates in *; lia).
  apply (fits_accommodates r a Hr Ha Hw Hh) in Hacc. congruence.
Qed.

(** X15: on a reachable bin whose free area keeps the scores inside an
    [int], if a request with positive width and height fails, then every
    request that is at least as wide and at least as tall fails too. *)
Theorem larger_request_fails_too (b : Bin) (a a' : Area) :
  reachable b -> wf_area a -> wf_area a' ->
  4 * totalArea (GetEmptyRegions b) < INT_MAX ->
  0 < width a -> 0 < height a ->
  width a <= width a' -> height a <= height a' ->
  IsValid (fst (TryPackArea b a)) = false ->
  IsValid (fst (TryPackArea b a')) = false.
Proof.
  unfold GetEmptyRegions. intros Hb Ha Ha' Hbound Hw Hh Hww Hhh Hfail.
  destruct (reachable_good b Hb) as [_ Hall].
  destruct (Z_le_dec (width a') (width (dimensions b))) as [HW |HW];
    [destruct (Z_le_dec (height a') (height (dimensions b))) as [HH | HH]|].
  - pose proof (proj1 (guarded_failure_iff b a Hall Ha Hbound Hw Hh
                         ltac:(lia) ltac:(lia)) Hfail) as Hnone.
    apply (proj2 (guarded_failure_iff b a' Hall Ha' Hbound
                    ltac:(lia) ltac:(lia) HW HH)).
    intros r Hr. destruct (Hnone r Hr) as [F1 F2].
    pose proof (proj1 (Forall_forall _ _) Hall r Hr) as Hg.
    split.
    + apply (fits_smaller r a a'); assumption.
    + apply (fits_smaller r (rotate a) (rotate a')); try assumption;
        try (apply rotate_wf; assumption); cbn [rotate width height]; lia.
  - unfold TryPackArea.
    replace (height a' <=? height (dimensions b)) with false
      by (symmetry; apply Z.leb_gt; lia).
    rewrite andb_false_r. reflexivity.
  - unfold TryPackArea.
    replace (width a' <=? width (dimensions b)) with false
      by (symmetry; apply Z.leb_gt; lia).
    rewrite andb_false_r. reflexivity.
Qed.

Lemma larger_request_fails_too_witness :
  IsValid (fst (TryPackArea packedOnce (mkArea 7 7))) = false /\
  IsValid (fst (TryPackArea packedOnce (mkArea 8 9))) = false.
Proof.
  split; [reflexivity|].
  apply (larger_request_fails_too packedOnce (mkArea 7 7) (mkArea 8 9)).
  - exact packedOnce_reachable.
  - apply small_area_wf. reflexivity.
  - apply small_area_wf. reflexivity.
  - reflexivity.
  - reflexivity.
  - reflexivity.
  - vm_compute. discriminate.
  - vm_compute. discriminate.
  - reflexivity.
Defined.

End LargerRequests.

(** ** Ordered insertion *)

Section OrderedInsertion.
Import U32 U32Facts.

Lemma keySorted_nth l i j :
  keySorted l -> (i <= j < length l)%nat ->
  sortKey (nth i l sentinel) <= sortKey (nth j l sentinel).
Proof.
  intros Hs. revert i j. induction Hs as [| a l Hl IH Ha]; intros i j Hij.
  - simpl in Hij. lia.
  - destruct i as [| i], j as [| j]; simpl in *; try lia.
    + apply (proj1 (Forall_forall _ _) Ha). apply nth_In. lia.
    + apply IH. lia.
Qed.

Lemma upper_bound_loop_spec l key fuel first len :
  keySorted l -> (len <= fuel)%nat -> (first + len <= length l)%nat ->
  (forall i, (i < first)%nat -> sortKey (nth i l sentinel) <= key) ->
  (forall i, (first + len <= i < length l)%nat ->
             key < sortKey (nth i l sentinel)) ->
  (forall i, (i < upper_bound_loop fuel l key first len)%nat ->
             sortKey (nth i l sentinel) <= key) /\
  (forall i, (upper_bound_loop fuel l key first len <= i < length l)%nat ->
             key < sortKey (nth i l sentinel)).
Proof.
  intros Hs. revert first len.
  induction fuel as [| fuel IH]; intros first len Hfuel Hlen Hlow Hhigh.
  - assert (len = 0%nat) by lia. subst. simpl.
    split; [assumption|]. intros i Hi. apply Hhigh. lia.
  - destruct len as [| len].
    + simpl. split; [assumption|]. intros i Hi. apply Hhigh. lia.
    + cbn [upper_bound_loop].
      pose proof (div2_lt_succ len) as Hhalf.
      set (half := Nat.div2 (S len)) in *. clearbody half.
      destruct (Z.ltb_spec key (sortKey (nth (first + half) l sentinel)))
        as [Hlt | Hge].
      * apply IH; try lia; try assumption.
        intros i Hi.
        pose proof (keySorted_nth l (first + half) i Hs). lia.
      * apply IH; try lia.
        -- intros i Hi.
           pose proof (keySorted_nth l i (first + half) Hs). lia.
        -- intros i Hi. apply Hhigh. lia.
Qed.

(** X16: on a list ordered by [left * top], the bisection returns the
    position just behind the last region whose key does not exceed the
    key of the value: every region before it has a key at most that of the
    value, every region from it on a strictly larger one. *)
Theorem upper_bound_partitions (l : list Rect) (value : Rect) :
  keySorted l ->
  (upper_bound l value <= length l)%nat /\
  (forall i, (i < upper_bound l value)%nat ->
             sortKey (nth i l sentinel) <= sortKey value) /\
  (forall i, (upper_bound l value <= i < length l)%nat ->
             sortKey value < sortKey (nth i l sentinel)).
Proof.
  intros Hs. split; [apply upper_bound_range|].
  unfold upper_bound. apply upper_bound_loop_spec; try assumption; lia.
Qed.

Lemma upper_bound_partitions_witness :
  (upper_bound [mkRect 4 0 9 9; mkRect 1 2 3 3; mkRect 2 5 4 6] (mkRect 1 3 5 5)
   <= length [mkRect 4 0 9 9; mkRect 1 2 3 3; mkRect 2 5 4 6])%nat /\
  (forall i,
     (i < upper_bound [mkRect 4 0 9 9; mkRect 1 2 3 3; mkRect 2 5 4 6]
                      (mkRect 1 3 5 5))%nat ->
     sortKey (nth i [mkRect 4 0 9 9; mkRect 1 2 3 3; mkRect 2 5 4 6] sentinel)
     <= sortKey (mkRect 1 3 5 5)) /\
  (forall i,
     (upper_bound [mkRect 4 0 9 9; mkRect 1 2 3 3; mkRect 2 5 4 6]
                  (mkRect 1 3 5 5) <= i
      < length [mkRect 4 0 9 9; mkRect 1 2 3 3; mkRect 2 5 4 6])%nat ->
     sortKey (mkRect 1 3 5 5)
     < sortKey (nth i [mkRect 4 0 9 9; mkRect 1 2 3 3; mkRect 2 5 4 6] sentinel)).
Proof.
  apply (upper_bound_partitions
           [mkRect 4 0 9 9; mkRect 1 2 3 3; mkRect 2 5 4 6] (mkRect 1 3 5 5)).
  unfold keySorted.
  repeat match goal with
         | |- StronglySorted _ [] => apply SSorted_nil
         | |- StronglySorted _ (_ :: _) => apply SSorted_cons
         | |- Forall _ [] => apply Forall_nil
         | |- Forall _ (_ :: _) => apply Forall_cons
         | |- _ <= _ => vm_compute; discriminate
         end.
Defined.

Lemma keySorted_app_inv l1 l2 :
  keySorted (l1 ++ l2) -> keySorted l1 /\ keySorted l2.
Proof.
  unfold keySorted. induction l1 as [| a l1 IH]; simpl; intros Hs.
  - split; [constructor | assumption].
  - inversion Hs as [| a' l' Hl Ha]; subst.
    destruct (IH Hl) as [H1 H2]. split; [|assumption].
    constructor; [assumption|].
    apply Forall_app in Ha. tauto.
Qed.

Lemma keySorted_app l1 l2 :
  keySorted l1 -> keySorted l2 ->
  (forall a b, In a l1 -> In b l2 -> sortKey a <= sortKey b) ->
  keySorted (l1 ++ l2).
Proof.
  unfold keySorted. intros H1 H2 Hx.
  induction H1 as [| a l1 Hl IH Ha]; simpl; [assumption|].
  constructor.
  - apply IH. intros a' b Ha' Hb. apply Hx; [right|]; assumption.
  - apply Forall_app. split; [assumption|].
    apply Forall_forall. intros b Hb. apply Hx; [left; reflexivity | assumption].
Qed.

Lemma in_firstn_nth p (l : list Rect) a :
  In a (firstn p l) ->
  exists i, (i < p)%nat /\ (i < length l)%nat /\ a = nth i l sentinel.
Proof.
  intros Ha. destruct (In_nth _ _ sentinel Ha) as (i & Hi & Hn).
  rewrite length_firstn in Hi. rewrite nth_firstn in Hn.
  destruct (Nat.ltb_spec i p); [|lia].
  exists i. repeat split; try lia. symmetry. assumption.
Qed.

Lemma in_skipn_nth p (l : list Rect) a :
  In a (skipn p l) ->
  exists i, (p <= i < length l)%nat /\ a = nth i l sentinel.
Proof.
  intros Ha. destruct (In_nth _ _ sentinel Ha) as (i & Hi & Hn).
  rewrite length_skipn in Hi. rewrite nth_skipn in Hn.
  exists (p + i)%nat. split; [lia | symmetry; assumption].
Qed.

Lemma emplace_sorted pos x l :
  keySorted l ->
  (forall i, (i < pos)%nat -> (i < length l)%nat ->
             sortKey (nth i l sentinel) <= sortKey x) ->
  (forall i, (pos <= i < length l)%nat ->
             sortKey x < sortKey (nth i l sentinel)) ->
  keySorted (emplace pos x l).
Proof.
  intros Hs Hlow Hhigh. unfold emplace.
  rewrite <- (firstn_skipn pos l) in Hs.
  destruct (keySorted_app_inv _ _ Hs) as [H1 H2].
  apply keySorted_app; [assumption | |].
  - constructor; [assumption|]. apply Forall_forall. intros b Hb.
    destruct (in_skipn_nth pos l b Hb) as (i & Hi & ->).
    specialize (Hhigh i Hi). lia.
  - intros a b Ha [<- | Hb].
    + destruct (in_firstn_nth pos l a Ha) as (i & Hi & Hil & ->).
      apply Hlow; assumption.
    + destruct (in_firstn_nth pos l a Ha) as (i & Hi & Hil & ->).
      destruct (in_skipn_nth pos l b Hb) as (j & Hj & ->).
      specialize (Hlow i Hi Hil). specialize (Hhigh j Hj). lia.
Qed.

Lemma emplace_upper_bound_sorted l x :
  keySorted l -> keySorted (emplace (upper_bound l x) x l).
Proof.
  intros Hs.
  pose proof (upper_bound_range l x) as Hp.
  unfold upper_bound in *.
  destruct (upper_bound_loop_spec l (sortKey x) (length l) 0 (length l) Hs)
    as [Hlow Hhigh]; try lia.
  apply emplace_sorted; auto.
Qed.

Lemma find_erase_sorted p l m rest :
  find_erase p l = Some (m, rest) -> keySorted l -> keySorted rest.
Proof.
  unfold keySorted. revert m rest.
  induction l as [| r l IH]; intros m rest Hf Hs; simpl in Hf; [discriminate|].
  inversion Hs as [| r' l' Hl Hr]; subst.
  destruct (p r).
  - inversion Hf; subst. assumption.
  - destruct (find_erase p l) as [[m0 l0] |] eqn:Hfl; [|discriminate].
    inversion Hf; subst. constructor; [apply (IH m l0); auto|].
    destruct (find_erase_Some _ _ _ _ Hfl) as [_ Hperm].
    pose proof (Forall_perm _ _ _ Hperm Hr) as Hall.
    inversion Hall; assumption.
Qed.

Lemma insertRegion_sorted regions n :
  keySorted regions -> keySorted (insertRegion regions n).
Proof.
  intros Hs. unfold insertRegion.
  destruct (find_erase (mergeable n) regions) as [[m rest] |] eqn:Hf.
  - apply emplace_upper_bound_sorted. apply (find_erase_sorted _ _ _ _ Hf Hs).
  - apply emplace_upper_bound_sorted. assumption.
Qed.

Lemma insertAll_sorted staged regions :
  keySorted regions -> keySorted (insertAll staged regions).
Proof.
  unfold insertAll. revert regions.
  induction staged as [| n staged IH]; intros regions Hs; simpl.
  - assumption.
  - apply IH, insertRegion_sorted, Hs.
Qed.

Lemma carve_kept_subset clip regions kept staged :
  carve clip regions = (kept, staged) -> forall r, In r kept -> In r regions.
Proof.
  revert kept staged. induction regions as [| i rest IH];
    intros kept staged Hc r Hr; simpl in Hc.
  - inversion Hc; subst. destruct Hr.
  - destruct (carve clip rest) as [kept0 staged0].
    destruct (overlapsClip clip i); inversion Hc; subst.
    + right. apply (IH kept staged0 eq_refl r Hr).
    + destruct Hr as [<- | Hr]; [left; reflexivity|].
      right. apply (IH kept0 staged eq_refl r Hr).
Qed.

Lemma carve_kept_sorted clip regions kept staged :
  carve clip regions = (kept, staged) -> keySorted regions -> keySorted kept.
Proof.
  unfold keySorted. intros Hc Hs. revert kept staged Hc.
  induction Hs as [| i rest Hrest IH Hi]; intros kept staged Hc; simpl in Hc.
  - inversion Hc; subst. constructor.
  - destruct (carve clip rest) as [kept0 staged0] eqn:Hcr.
    destruct (overlapsClip clip i); inversion Hc; subst.
    + apply (IH kept staged0 eq_refl).
    + constructor; [apply (IH kept0 staged eq_refl)|].
      apply Forall_forall. intros r Hr.
      apply (proj1 (Forall_forall _ _) Hi).
      apply (carve_kept_subset clip rest kept0 staged Hcr r Hr).
Qed.

(** X17: a packing call keeps the order of the region list: if the free
    regions were in ascending order of [left * top] before the call, they
    are so after it, whether the call succeeds or fails. *)
Theorem TryPackArea_keeps_order (b : Bin) (a : Area) :
  keySorted (GetEmptyRegions b) ->
  keySorted (GetEmptyRegions (snd (TryPackArea b a))).
Proof.
  unfold GetEmptyRegions. intros Hs.
  destruct (TryPackArea_cases b a) as [-> | (_ & _ & _ & _ & _ & _ & ->)];
    [assumption|].
  cbn [emptyRegions]. unfold applyClip.
  destruct (carve (fst (TryPackArea b a)) (emptyRegions b))
    as [kept staged] eqn:Hc.
  apply insertAll_sorted. apply (carve_kept_sorted _ _ _ _ Hc Hs).
Qed.

Lemma TryPackArea_keeps_order_witness :
  keySorted (GetEmptyRegions (snd (TryPackArea packedOnce (mkArea 6 3)))).
Proof.
  apply (TryPackArea_keeps_order packedOnce (mkArea 6 3)).
  change (GetEmptyRegions packedOnce) with [mkRect 4 0 9 9; mkRect 0 4 9 9].
  unfold keySorted.
  repeat match goal with
         | |- StronglySorted _ [] => apply SSorted_nil
         | |- StronglySorted _ (_ :: _) => apply SSorted_cons
         | |- Forall _ [] => apply Forall_nil
         | |- Forall _ (_ :: _) => apply Forall_cons
         | |- _ <= _ => vm_compute; discriminate
         end.
Defined.

End OrderedInsertion.

(** ** A request that matches the only free region *)

Section ExactFit.
Import U32 U32Facts.

Lemma clipNW_whole r :
  goodRect r -> clipNW r (mkArea (rectWidth r) (rectHeight r)) = r.
Proof.
  unfold goodRect, within, clipNW, rectWidth, rectHeight. intros Hr.
  destruct r as [l t rr bb]. cbn [left top right bottom width height] in *.
  rewrite !sub_add_exact by (unfold in_range; lia). f_equal; lia.
Qed.

Lemma remainders_self r : IsValid r = true -> remainders r r = [].
Proof.
  unfold IsValid, remainders. intros _.
  rewrite ?Z.gtb_ltb, !Z.ltb_irrefl. reflexivity.
Qed.

Lemma overlapsClip_self r : IsValid r = true -> overlapsClip r r = true.
Proof. unfold IsValid, overlapsClip. intros Hv. zprop. lia. Qed.

Lemma tryCorners_zero_first regions c clips :
  totalScore regions c = 0 ->
  tryCorners regions (c :: clips) noBest = (mkBest 0 c, true).
Proof. intros Hz. cbn [tryCorners]. rewrite Hz. reflexivity. Qed.

(** X18: when the bin has a single free region and the request has exactly
    its width and height (and passes the dimension guard), the call returns
    that region and leaves no free region behind. *)
Theorem TryPackArea_exact_fit (dims : Area) (r : Rect) :
  wf_area dims -> goodRect r ->
  rectWidth r <= width dims -> rectHeight r <= height dims ->
  TryPackArea (mkBin dims [r]) (mkArea (rectWidth r) (rectHeight r))
  = (r, mkBin dims []).
Proof.
  intros [Hdw Hdh] Hg HW HH. unfold in_range in Hdw, Hdh.
  pose proof (within_valid _ _ r Hg) as Hv.
  set (a := mkArea (rectWidth r) (rectHeight r)).
  assert (Hpos : 0 < width a /\ 0 < height a).
  { unfold a, goodRect, within, rectWidth, rectHeight in *.
    cbn [width height]. lia. }
  assert (Hwa : wf_area a).
  { unfold a, wf_area, in_range, goodRect, within, rectWidth, rectHeight in *.
    cbn [width height]. lia. }
  assert (Hfit : fits r a = true).
  { apply fits_accommodates; try assumption; try lia.
    unfold accommodates, a. cbn [width height]. lia. }
  assert (Hsearch : search [r] a = mkBest 0 r).
  { assert (Hnw : clipNW r a = r) by (apply clipNW_whole; assumption).
    unfold search. cbn [scanRegions]. rewrite Hfit. unfold corners.
    rewrite tryCorners_zero_first.
    - rewrite Hnw. reflexivity.
    - rewrite Hnw. unfold totalScore. cbn [fold_left].
      rewrite GetClipScore_self. reflexivity. }
  unfold TryPackArea. cbn [dimensions emptyRegions].
  replace ((width a >? 0) && (height a >? 0) && (width a <=? width dims)
           && (height a <=? height dims)) with true
    by (symmetry; unfold a in *; cbn [width height] in *; zprop; lia).
  rewrite Hsearch. cbn [bestRect]. rewrite Hv.
  unfold applyClip. cbn [carve]. rewrite (overlapsClip_self r Hv).
  rewrite (remainders_self r Hv). reflexivity.
Qed.

Lemma TryPackArea_exact_fit_witness :
  TryPackArea (mkBin (mkArea 10 10) [mkRect 2 3 6 3])
              (mkArea (rectWidth (mkRect 2 3 6 3)) (rectHeight (mkRect 2 3 6 3)))
  = (mkRect 2 3 6 3, mkBin (mkArea 10 10) []).
Proof.
  apply (TryPackArea_exact_fit (mkArea 10 10) (mkRect 2 3 6 3)).
  - apply small_area_wf. reflexivity.
  - unfold goodRect, within, modulus. cbn [left top right bottom]. lia.
  - vm_compute. discriminate.
  - vm_compute. discriminate.
Defined.

End ExactFit.

(** ** Dimensions after an extension, and rotated placements *)

Section DimensionsAndRotation.
Import U32 U32Facts.

(** X19: an in-range extension of a reachable bin adds the extension to
    the dimensions component by component, whether or not any free region
    is touched, and an extension by {0,0} leaves the whole bin as it is. *)
Theorem ExtendDimensions_adds_dimensions (b : Bin) (e : Area) :
  reachable b -> extensionInRange b e ->
  GetDimensions (ExtendDimensions b e)
  = mkArea (width (GetDimensions b) + width e)
           (height (GetDimensions b) + height e)
  /\ (e = mkArea 0 0 -> ExtendDimensions b e = b).
Proof.
  intros Hb He. destruct (reachable_good b Hb) as [Hd _].
  split; [apply ExtendDimensions_dimensions; assumption|].
  intros ->. unfold ExtendDimensions. cbn [width height].
  change (0 >? 0) with false. cbn [andb].
  destruct Hd as [Hw Hh].
  rewrite (add_zero_r (width (dimensions b))) by assumption.
  rewrite (add_zero_r (height (dimensions b))) by assumption.
  destruct b as [[W H] regions]. reflexivity.
Qed.

Lemma ExtendDimensions_adds_dimensions_witness :
  GetDimensions (ExtendDimensions packedOnce (mkArea 5 3))
  = mkArea (width (GetDimensions packedOnce) + width (mkArea 5 3))
           (height (GetDimensions packedOnce) + height (mkArea 5 3))
  /\ (mkArea 5 3 = mkArea 0 0 -> ExtendDimensions packedOnce (mkArea 5 3) = packedOnce).
Proof.
  apply (ExtendDimensions_adds_dimensions packedOnce (mkArea 5 3)).
  - exact packedOnce_reachable.
  - apply small_extension_in_range. reflexivity.
Defined.

(** X20: on a reachable bin whose free area keeps the scores inside an
    [int], a request that passes the dimension guard, fits no free region
    as given but fits one after swapping width and height, succeeds, and
    the returned rectangle is the rotated one: as wide as the request is
    tall and as tall as the request is wide. *)
Theorem TryPackArea_rotates_when_needed (b : Bin) (a : Area) :
  reachable b -> wf_area a ->
  4 * totalArea (GetEmptyRegions b) < INT_MAX ->
  0 < width a -> 0 < height a ->
  width a <= width (GetDimensions b) -> height a <= height (GetDimensions b) ->
  (forall r, In r (GetEmptyRegions b) -> ~ accommodates r a) ->
  (exists r, In r (GetEmptyRegions b) /\ accommodates r (rotate a)) ->
  IsValid (fst (TryPackArea b a)) = true /\
  rectWidth (fst (TryPackArea b a)) = height a /\
  rectHeight (fst (TryPackArea b a)) = width a.
Proof.
  unfold GetEmptyRegions, GetDimensions.
  intros Hb Ha Hbound Hw Hh HW HH Hnone (r0 & Hr0 & Hacc0).
  destruct (reachable_good b Hb) as [_ Hall].
  assert (Hgood : forall r, In r (emptyRegions b) -> goodRect r)
    by (apply Forall_forall; assumption).
  assert (Hv : IsValid (fst (TryPackArea b a)) = true).
  { destruct (IsValid (fst (TryPackArea b a))) eqn:Hv; [reflexivity|].
    exfalso.
    pose proof (proj1 (guarded_failure_iff b a Hall Ha Hbound Hw Hh HW HH) Hv r0 Hr0)
      as [_ Hf].
    apply (fits_accommodates r0 (rotate a) (Hgood r0 Hr0) (rotate_wf a Ha) Hh Hw)
      in Hacc0.
    congruence. }
  split; [assumption|].
  destruct (TryPackArea_cases b a) as [Hs | (_ & _ & _ & _ & Hc & _ & _)];
    [rewrite Hs in Hv; discriminate|].
  destruct Hc as (r & a' & Hr & [-> | ->] & Hf & Hin).
  - exfalso. apply (Hnone r Hr).
    apply (fits_accommodates r a (Hgood r Hr) Ha Hw Hh). assumption.
  - destruct (corners_geometry r (rotate a) _ (Hgood r Hr) (rotate_wf a Ha)
                Hh Hw Hf Hin) as (_ & _ & Hcw & Hch).
    split; assumption.
Qed.

Lemma TryPackArea_rotates_when_needed_witness :
  IsValid (fst (TryPackArea (snd (TryPackArea tenByTen (mkArea 10 8))) (mkArea 2 6))) = true /\
  rectWidth (fst (TryPackArea (snd (TryPackArea tenByTen (mkArea 10 8))) (mkArea 2 6)))
  = height (mkArea 2 6) /\
  rectHeight (fst (TryPackArea (snd (TryPackArea tenByTen (mkArea 10 8))) (mkArea 2 6)))
  = width (mkArea 2 6).
Proof.
  apply (TryPackArea_rotates_when_needed
           (snd (TryPackArea tenByTen (mkArea 10 8))) (mkArea 2 6)).
  - apply reach_pack; [exact tenByTen_reachable | apply small_area_wf; reflexivity].
  - apply small_area_wf. reflexivity.
  - reflexivity.
  - reflexivity.
  - reflexivity.
  - vm_compute. discriminate.
  - vm_compute. discriminate.
  - change (GetEmptyRegions (snd (TryPackArea tenByTen (mkArea 10 8))))
      with [mkRect 0 8 9 9].
    intros r [<- | []]. unfold accommodates, rectWidth, rectHeight.
    cbn [left top right bottom width height]. lia.
  - change (GetEmptyRegions (snd (TryPackArea tenByTen (mkArea 10 8))))
      with [mkRect 0 8 9 9].
    exists (mkRect 0 8 9 9). split; [left; reflexivity|].
    unfold accommodates, rotate, rectWidth, rectHeight.
    cbn [left top right bottom width height]. lia.
Defined.

End DimensionsAndRotation.
